(** * The translator app: split viewer, translation service, application shell

    A shallow embedding of [components/SplitViewer.tsx] (with the records of
    [types.ts]), of [services/geminiService.ts] and of the state handling of
    [App.tsx], and the properties of the viewer's geometry, text fitting,
    pan/zoom controller and image-load effect, of the header stripping and
    error handling of the service, and of the screens of the shell.

    JavaScript numbers are IEEE-754 binary64 values, which is what Rocq's
    primitive [float] is, so every arithmetic expression of the component is
    transcribed operator for operator and evaluates here to the value the
    browser computes.  React state is threaded explicitly: a handler is a
    function from the committed state to the next one, the render is a
    function of props and state.  Promises are modelled by how they settle,
    the network call and [JSON.parse] being parameters. *)

From Stdlib Require Import ZArith NArith List Bool Lia String Ascii Floats.
From Stdlib Require Import Uint63.
Import ListNotations.

Set Warnings "-inexact-float".

(** ** JavaScript values *)

(** [Math.max(a, b)] and [Math.min(a, b)] on two numbers: NaN if either
    argument is NaN, and [+0] is larger than [-0]. *)
Definition Math_max (a b : float) : float :=
  if is_nan a || is_nan b then nan
  else if (a <? b)%float then b
  else if (b <? a)%float then a
  else if get_sign a then b else a.

Definition Math_min (a b : float) : float :=
  if is_nan a || is_nan b then nan
  else if (a <? b)%float then a
  else if (b <? a)%float then b
  else if get_sign a then a else b.

(** An integer as a JavaScript number. *)
Definition js_of_Z (z : Z) : float :=
  match z with
  | Z0 => 0%float
  | Zpos _ => of_uint63 (Uint63.of_Z z)
  | Zneg p => (- of_uint63 (Uint63.of_Z (Zpos p)))%float
  end.

(** A JavaScript string is a sequence of UTF-16 code units, and [.length]
    counts code units. *)
Definition code_unit := N.
Definition js_string := list code_unit.

Definition js_length (s : js_string) : nat := List.length s.

(** The code units of one Unicode code point: one unit in the Basic
    Multilingual Plane, a surrogate pair above it. *)
Definition utf16_encode (cp : N) : list code_unit :=
  if (cp <? 0x10000)%N then [cp]
  else
    let v := (cp - 0x10000)%N in
    [(0xD800 + N.shiftr v 10)%N; (0xDC00 + N.land v 0x3FF)%N].

Definition js_of_code_points (cps : list N) : js_string :=
  flat_map utf16_encode cps.

(** A CSS number written in decimal ([1], [1.1]) as the number it denotes:
    the digits as an integer divided by the power of ten of the fraction. *)
Definition digit_of (c : ascii) : option Z :=
  let n := Z.of_nat (nat_of_ascii c) in
  if ((48 <=? n) && (n <=? 57))%Z then Some (n - 48)%Z else None.

Fixpoint css_digits (s : string) (seen_dot : bool) (num den : Z) : option (Z * Z) :=
  match s with
  | EmptyString => Some (num, den)
  | String c rest =>
      if Ascii.eqb c "."%char then
        if seen_dot then None else css_digits rest true num den
      else
        match digit_of c with
        | Some d =>
            css_digits rest seen_dot (10 * num + d)%Z
                       (if seen_dot then (10 * den)%Z else den)
        | None => None
        end
  end.

Definition css_number (s : string) : option float :=
  match s with
  | EmptyString => None
  | _ =>
      match css_digits s false 0%Z 1%Z with
      | Some (num, den) => Some (js_of_Z num / js_of_Z den)%float
      | None => None
      end
  end.

(** ** types.ts *)

Record TranslationItem := {
  originalText : js_string;
  translatedText : js_string;
  box_2d : list float  (* [ymin, xmin, ymax, xmax] 0-1000 scale *)
}.

Record ViewState := {
  scale : float;
  x : float;
  y : float
}.

(** ** SplitViewer.tsx: props and state *)

Record SplitViewerProps := {
  imageData : string;
  translations : list TranslationItem
}.

Record ImageDims := {
  w : float;
  h : float;
  ratio : float
}.

Record Position := {
  pos_x : float;
  pos_y : float
}.

(** The [useState] cells and the [lastPosition] ref of the component. *)
Record SplitViewerState := {
  viewState : ViewState;
  isDragging : bool;
  imageDims : option ImageDims;
  overlayOpacity : float;
  lastPosition : Position
}.

(** The values of the [useState]/[useRef] initialisers. *)
Definition initialState : SplitViewerState := {|
  viewState := {| scale := 1; x := 0; y := 0 |};
  isDragging := false;
  imageDims := None;
  overlayOpacity := 0.8;
  lastPosition := {| pos_x := 0; pos_y := 0 |}
|}.

Definition with_viewState (s : SplitViewerState) (v : ViewState) : SplitViewerState :=
  {| viewState := v; isDragging := isDragging s; imageDims := imageDims s;
     overlayOpacity := overlayOpacity s; lastPosition := lastPosition s |}.

Definition with_isDragging (s : SplitViewerState) (b : bool) : SplitViewerState :=
  {| viewState := viewState s; isDragging := b; imageDims := imageDims s;
     overlayOpacity := overlayOpacity s; lastPosition := lastPosition s |}.

Definition with_imageDims (s : SplitViewerState) (d : option ImageDims) : SplitViewerState :=
  {| viewState := viewState s; isDragging := isDragging s; imageDims := d;
     overlayOpacity := overlayOpacity s; lastPosition := lastPosition s |}.

Definition with_overlayOpacity (s : SplitViewerState) (o : float) : SplitViewerState :=
  {| viewState := viewState s; isDragging := isDragging s; imageDims := imageDims s;
     overlayOpacity := o; lastPosition := lastPosition s |}.

Definition with_lastPosition (s : SplitViewerState) (p : Position) : SplitViewerState :=
  {| viewState := viewState s; isDragging := isDragging s; imageDims := imageDims s;
     overlayOpacity := overlayOpacity s; lastPosition := p |}.

(** ** The image-load effect *)

(** [img.onload]: the dimension state is set from the loaded image's
    natural size, whatever [imageData] is by then. *)
Definition onload (naturalWidth naturalHeight : float) (s : SplitViewerState)
  : SplitViewerState :=
  with_imageDims s
    (Some {| w := naturalWidth; h := naturalHeight;
             ratio := (naturalWidth / naturalHeight)%float |}).

(** ** Pointer, wheel and button handlers *)

(** A mouse event carries [clientX]/[clientY]; a touch event reads them from
    [touches[0]], which touchstart and touchmove always have. *)
Inductive PointerEvent :=
| MouseEv (clientX clientY : float)
| TouchEv (touch0 : Position) (more_touches : list Position).

Definition clientX_of (e : PointerEvent) : float :=
  match e with
  | MouseEv cx _ => cx
  | TouchEv t _ => pos_x t
  end.

Definition clientY_of (e : PointerEvent) : float :=
  match e with
  | MouseEv _ cy => cy
  | TouchEv t _ => pos_y t
  end.

(** [handleWheel]: [newScale] is computed from the [viewState.scale] the
    callback closed over ([rendered_scale]) and written into the previous
    state with the other fields spread. *)
Definition handleWheel (rendered_scale deltaY : float) (prev : ViewState) : ViewState :=
  let scaleChange := (- deltaY * 0.002)%float in
  let newScale := Math_min (Math_max 0.5 (rendered_scale + scaleChange)) 8 in
  {| scale := newScale; x := x prev; y := y prev |}.

Definition handleMouseDown (e : PointerEvent) (s : SplitViewerState) : SplitViewerState :=
  with_lastPosition (with_isDragging s true)
    {| pos_x := clientX_of e; pos_y := clientY_of e |}.

Definition handleMouseMove (e : PointerEvent) (s : SplitViewerState) : SplitViewerState :=
  if negb (isDragging s) then s
  else
    let clientX := clientX_of e in
    let clientY := clientY_of e in
    let dx := (clientX - pos_x (lastPosition s))%float in
    let dy := (clientY - pos_y (lastPosition s))%float in
    let prev := viewState s in
    with_viewState
      (with_lastPosition s {| pos_x := clientX; pos_y := clientY |})
      {| scale := scale prev; x := (x prev + dx)%float; y := (y prev + dy)%float |}.

Definition handleMouseUp (s : SplitViewerState) : SplitViewerState :=
  with_isDragging s false.

Definition resetView (s : SplitViewerState) : SplitViewerState :=
  with_viewState s {| scale := 1; x := 0; y := 0 |}.

(** The [-] and [+] buttons. *)
Definition zoomOut (s : ViewState) : ViewState :=
  {| scale := Math_max 0.5 (scale s - 0.25); x := x s; y := y s |}.

Definition zoomIn (s : ViewState) : ViewState :=
  {| scale := Math_min 8 (scale s + 0.25); x := x s; y := y s |}.

(** The opacity slider's [onChange], [value] being the slider position. *)
Definition setOpacityFromSlider (value : float) (s : SplitViewerState) : SplitViewerState :=
  with_overlayOpacity s (value / 100)%float.

(** ** renderImageContent *)

Inductive Mode := original | translated.

(** Container-query lengths ([85cqw], [47.5cqh]) and the CSS [min()] of two. *)
Inductive cq_unit := cqw | cqh.

Record cq_length := {
  amount : float;
  unit : cq_unit
}.

Inductive css_size :=
| css_min (a b : cq_length).

Inductive WritingMode := vertical_rl | horizontal_tb.

(** The style of one overlay box and of the [span] inside it; [top], [left],
    [width] and [height] are the numbers printed before [%]. *)
Record OverlayStyle := {
  key : nat;
  top : float;
  left : float;
  width : float;
  height : float;
  backgroundAlpha : float;
  writingMode : WritingMode;
  textOrientation : option string;
  fontSize : css_size;
  lineHeight : string;
  text : js_string
}.

(** [a > b] on numbers. *)
Definition js_gt (a b : float) : bool := (b <? a)%float.

(** One element of the array destructuring [[ymin, xmin, ymax, xmax] =
    item.box_2d]: a missing element is [undefined], which every use below
    (division, subtraction) converts to NaN. *)
Definition box_coord (box : list float) (i : nat) : float := nth i box nan.

(** [item.translatedText.length || 1]. *)
Definition textLen_of (item : TranslationItem) : nat :=
  let n := js_length (translatedText item) in
  if Nat.eqb n 0 then 1%nat else n.

Definition isVertical_of (item : TranslationItem) : bool :=
  let ymin := box_coord (box_2d item) 0 in
  let xmin := box_coord (box_2d item) 1 in
  let ymax := box_coord (box_2d item) 2 in
  let xmax := box_coord (box_2d item) 3 in
  js_gt (ymax - ymin)%float ((xmax - xmin) * 1.3)%float.

(** The callback of [translations.map]. *)
Definition renderOverlay (opacity : float) (item : TranslationItem) (idx : nat)
  : OverlayStyle :=
  let ymin := box_coord (box_2d item) 0 in
  let xmin := box_coord (box_2d item) 1 in
  let ymax := box_coord (box_2d item) 2 in
  let xmax := box_coord (box_2d item) 3 in
  let top := (ymin / 10)%float in
  let left := (xmin / 10)%float in
  let width := ((xmax - xmin) / 10)%float in
  let height := ((ymax - ymin) / 10)%float in
  let isVertical := js_gt (ymax - ymin)%float ((xmax - xmin) * 1.3)%float in
  let textLen := js_of_Z (Z.of_nat (textLen_of item)) in
  {| key := idx;
     top := top;
     left := left;
     width := width;
     height := height;
     backgroundAlpha := opacity;
     writingMode := if isVertical then vertical_rl else horizontal_tb;
     textOrientation := if isVertical then Some "upright"%string else None;
     fontSize :=
       if isVertical
       then css_min {| amount := 85; unit := cqw |}
                    {| amount := (95 / textLen)%float; unit := cqh |}
       else css_min {| amount := 85; unit := cqh |}
                    {| amount := (95 / textLen)%float; unit := cqw |};
     lineHeight := if isVertical then "1.1"%string else "1"%string;
     text := translatedText item |}.

(** [Array.prototype.map] with the element index. *)
Fixpoint map_indexed {A B : Type} (f : A -> nat -> B) (l : list A) (idx : nat) : list B :=
  match l with
  | [] => []
  | a :: rest => f a idx :: map_indexed f rest (S idx)
  end.

(** [translate(${x}px, ${y}px) scale(${scale})]. *)
Record Transform := {
  translate_x : float;
  translate_y : float;
  scale_factor : float
}.

(** What one pane shows: the transformed outer [div], the aspect-ratio
    wrapper, the image and, in translated mode only, the overlay layer. *)
Record Pane := {
  transform : Transform;
  transition : string;
  cursor : string;
  aspectRatio : float;
  wrapperHeight : string;
  wrapperWidth : string;
  img_src : string;
  overlayLayer : option (list OverlayStyle)
}.

Definition renderImageContent (props : SplitViewerProps) (s : SplitViewerState)
    (mode : Mode) : option Pane :=
  match imageDims s with
  | None => None
  | Some dims =>
      Some {|
        transform := {| translate_x := x (viewState s);
                        translate_y := y (viewState s);
                        scale_factor := scale (viewState s) |};
        transition := if isDragging s then "none"%string
                      else "transform 0.1s ease-out"%string;
        cursor := if isDragging s then "grabbing"%string else "grab"%string;
        aspectRatio := ratio dims;
        wrapperHeight := if js_gt (ratio dims) 1 then "auto"%string else "100%"%string;
        wrapperWidth := if js_gt (ratio dims) 1 then "100%"%string else "auto"%string;
        img_src := imageData props;
        overlayLayer :=
          match mode with
          | translated =>
              Some (map_indexed (renderOverlay (overlayOpacity s)) (translations props) 0)
          | original => None
          end
      |}
  end.

(** The two panes of one render, original first. *)
Definition renderPanes (props : SplitViewerProps) (s : SplitViewerState)
  : option Pane * option Pane :=
  (renderImageContent props s original, renderImageContent props s translated).

(** ** The mounted component as a transition system *)

(** The component together with its props and the [Image] objects whose
    [onload] has not fired yet, oldest first, each named by its [src]. *)
Record Mounted := {
  props : SplitViewerProps;
  state : SplitViewerState;
  inFlight : list string
}.

Inductive Event :=
| Wheel (deltaY : float)
| PointerDown (e : PointerEvent)      (* onMouseDown, onTouchStart *)
| PointerMove (e : PointerEvent)      (* onMouseMove, onTouchMove *)
| PointerUp                           (* onMouseUp, onMouseLeave, onTouchEnd *)
| ClickMinus
| ClickPlus
| ClickReset
| SlideOpacity (value : float)
| NewProps (p : SplitViewerProps)     (* the parent renders with new props *)
| ImageLoaded (n : nat)               (* the n-th image in flight loads *)
| ImageFailed (n : nat).              (* the n-th image in flight errors *)

Fixpoint remove_nth {A : Type} (n : nat) (l : list A) : list A :=
  match l, n with
  | [], _ => []
  | _ :: rest, O => rest
  | a :: rest, S k => a :: remove_nth k rest
  end.

Definition with_state (m : Mounted) (s : SplitViewerState) : Mounted :=
  {| props := props m; state := s; inFlight := inFlight m |}.

Section Component.

(** The natural width and height of the image a source decodes to. *)
Variable natural : string -> float * float.

(** First render: initial state, and the effect starts loading
    [imageData]. *)
Definition mount (p : SplitViewerProps) : Mounted :=
  {| props := p; state := initialState; inFlight := [imageData p] |}.

(** The effect with dependency [imageData] runs again only when the
    source changed; it creates a new [Image] and cancels nothing. *)
Definition receiveProps (p : SplitViewerProps) (m : Mounted) : Mounted :=
  {| props := p;
     state := state m;
     inFlight := if String.eqb (imageData p) (imageData (props m))
                 then inFlight m
                 else inFlight m ++ [imageData p] |}.

Definition imageLoaded (n : nat) (m : Mounted) : Mounted :=
  match nth_error (inFlight m) n with
  | None => m
  | Some src =>
      {| props := props m;
         state := onload (fst (natural src)) (snd (natural src)) (state m);
         inFlight := remove_nth n (inFlight m) |}
  end.

Definition step (m : Mounted) (ev : Event) : Mounted :=
  match ev with
  | Wheel deltaY =>
      with_state m
        (with_viewState (state m)
           (handleWheel (scale (viewState (state m))) deltaY (viewState (state m))))
  | PointerDown e => with_state m (handleMouseDown e (state m))
  | PointerMove e => with_state m (handleMouseMove e (state m))
  | PointerUp => with_state m (handleMouseUp (state m))
  | ClickMinus => with_state m (with_viewState (state m) (zoomOut (viewState (state m))))
  | ClickPlus => with_state m (with_viewState (state m) (zoomIn (viewState (state m))))
  | ClickReset => with_state m (resetView (state m))
  | SlideOpacity v => with_state m (setOpacityFromSlider v (state m))
  | NewProps p => receiveProps p m
  | ImageLoaded n => imageLoaded n m
  | ImageFailed n =>
      {| props := props m; state := state m; inFlight := remove_nth n (inFlight m) |}
  end.

Definition run (m : Mounted) (evs : list Event) : Mounted :=
  fold_left step evs m.

End Component.

(** ** Named conditions and sample data *)

(** The bounds of the zoom factor, [0.5 <= scale <= 8]. *)
Definition scale_in_range (v : float) : bool :=
  ((0.5 <=? v) && (v <=? 8))%float.

(** The two-sided clamp of [handleWheel]. *)
Definition clamp_scale (t : float) : float := Math_min (Math_max 0.5 t) 8.

(** The pan/zoom transform a pane applies, if it renders. *)
Definition pane_transform (p : option Pane) : option Transform :=
  option_map transform p.

(** A coordinate of the 0-1000 grid. *)
Definition on_grid (z : Z) : bool := ((0 <=? z) && (z <=? 1000))%Z.

(** A region with integer coordinates. *)
Definition grid_item (orig txt : js_string) (ymin xmin ymax xmax : Z) : TranslationItem :=
  {| originalText := orig; translatedText := txt;
     box_2d := [js_of_Z ymin; js_of_Z xmin; js_of_Z ymax; js_of_Z xmax] |}.

(** The integers [lo], ..., [lo + n - 1], each with its JavaScript number. *)
Definition grid_table (lo : Z) (n : nat) : list (Z * float) :=
  map (fun k => let z := (lo + Z.of_nat k)%Z in (z, js_of_Z z)) (seq 0 n).

(** A check of every pair of table entries. *)
Definition all_pairs (P : Z * float -> Z * float -> bool) (lo : Z) (n : nat) : bool :=
  let tbl := grid_table lo n in
  forallb (fun a => forallb (P a) tbl) tbl.

(** Subtracting [b] from [a] as numbers gives their integer difference. *)
Definition difference_exact (a b : Z * float) : bool :=
  PrimFloat.Leibniz.eqb (snd a - snd b)%float (js_of_Z (fst a - fst b)).

(** The orientation test [h > w * 1.3] on numbers agrees with [10 h > 13 w]
    on integers. *)
Definition orientation_exact (ww hh : Z * float) : bool :=
  Bool.eqb (js_gt (snd hh) (snd ww * 1.3)%float) (13 * fst ww <? 10 * fst hh)%Z.

(** The placement of an overlay, in percent: top, left, width, height. *)
Definition placement (o : OverlayStyle) : float * float * float * float :=
  (top o, left o, width o, height o).

(** The placements of the overlays a pane draws. *)
Definition pane_placements (p : option Pane) : option (list (float * float * float * float)) :=
  match p with
  | Some pane => option_map (map placement) (overlayLayer pane)
  | None => None
  end.

(** The defensive clamp of a malformed box as the specification words it,
    [ymax = max(ymax, ymin+1)] and likewise [xmax = max(xmax, xmin+1)].  The
    component has no such step; the definition is here to be compared with
    what [renderOverlay] computes. *)
Definition spec_clamp_box (item : TranslationItem) : TranslationItem :=
  let ymin := box_coord (box_2d item) 0 in
  let xmin := box_coord (box_2d item) 1 in
  let ymax := box_coord (box_2d item) 2 in
  let xmax := box_coord (box_2d item) 3 in
  {| originalText := originalText item;
     translatedText := translatedText item;
     box_2d := [ymin; xmin; Math_max ymax (ymin + 1)%float; Math_max xmax (xmin + 1)%float] |}.

(** A box whose vertical coordinates are inverted: ymin 300, ymax 100. *)
Definition inverted_item : TranslationItem := grid_item [] [] 300 200 100 600.

(** The one-character string U+55E8. *)
Definition hai : js_string := js_of_code_points [0x55E8%N].

(** Two sources and the natural sizes of their images. *)
Definition propsA : SplitViewerProps := {| imageData := "A"; translations := [] |}.
Definition propsB : SplitViewerProps := {| imageData := "B"; translations := [] |}.

Definition natural_example (src : string) : float * float :=
  if String.eqb src "A" then (1200, 800)%float else (600, 600)%float.

(** "A" is replaced by "B" while still loading, then "B" loads; the load of
    "A" is still in flight. *)
Definition stale_scenario : Mounted :=
  run natural_example (mount propsA) [NewProps propsB; ImageLoaded 1].

(** ** Classes of events *)

(** A wheel event whose [deltaY] is a number (as every [WheelEvent] has);
    other events qualify as they are. *)
Definition numeric_wheel (ev : Event) : bool :=
  match ev with
  | Wheel deltaY => negb (is_nan deltaY)
  | _ => true
  end.

Definition is_pointer_event (ev : Event) : bool :=
  match ev with
  | PointerDown _ | PointerMove _ | PointerUp => true
  | _ => false
  end.

Definition is_zoom_event (ev : Event) : bool :=
  match ev with
  | Wheel _ | ClickMinus | ClickPlus => true
  | _ => false
  end.

Definition is_image_loaded (ev : Event) : bool :=
  match ev with
  | ImageLoaded _ => true
  | _ => false
  end.

(** A pane with its overlay layer taken away. *)
Definition without_overlay (p : Pane) : Pane :=
  {| transform := transform p; transition := transition p; cursor := cursor p;
     aspectRatio := aspectRatio p; wrapperHeight := wrapperHeight p;
     wrapperWidth := wrapperWidth p; img_src := img_src p; overlayLayer := None |}.

(** The positions of the opacity slider, [min="20"] to [max="100"]. *)
Definition slider_positions : list Z := map (fun k => (20 + Z.of_nat k)%Z) (seq 0 81).

Definition opacity_in_range (o : float) : bool := ((0.2 <=? o) && (o <=? 1))%float.

(** * services/geminiService.ts *)

(** [s.split(sep)] for a one-character separator: the pieces between the
    separators, at least one. *)
Fixpoint js_split (sep : ascii) (s : string) : list string :=
  match s with
  | EmptyString => [EmptyString]
  | String c rest =>
      if Ascii.eqb c sep then EmptyString :: js_split sep rest
      else
        match js_split sep rest with
        | seg :: segs => String c seg :: segs
        | [] => [String c EmptyString]
        end
  end.

(** No character of [s] is [sep]. *)
Fixpoint free_of (sep : ascii) (s : string) : bool :=
  match s with
  | EmptyString => true
  | String c rest => negb (Ascii.eqb c sep) && free_of sep rest
  end.

(** [base64Image.split(',')[1] || base64Image]: a missing piece is
    [undefined] and an empty one is the empty string, both falsy. *)
Definition cleanBase64 (base64Image : string) : string :=
  match nth_error (js_split "," base64Image) 1 with
  | Some piece => if String.eqb piece "" then base64Image else piece
  | None => base64Image
  end.

(** A promise that has settled. *)
Inductive Settled (A : Type) :=
| Resolved (value : A)
| Rejected (error : string).
Arguments Resolved {A} value.
Arguments Rejected {A} error.

(** What [generateContent] is called with, as far as it varies: the prompt
    and the response schema are constants of the source. *)
Record GenerateRequest := {
  model : string;
  mimeType : string;
  data : string
}.

Section GeminiService.

(** [process.env.API_KEY], the network call with the [text] of its
    response, and [JSON.parse] cast to [TranslationItem[]]. *)
Variable API_KEY : option string.
Variable generateContent : GenerateRequest -> Settled (option string).
Variable JSON_parse : string -> Settled (list TranslationItem).

(** [getGeminiClient]: throws when the key is undefined or empty. *)
Definition getGeminiClient : Settled string :=
  match API_KEY with
  | Some apiKey =>
      if String.eqb apiKey "" then Rejected "API Key not found in environment variables"
      else Resolved apiKey
  | None => Rejected "API Key not found in environment variables"
  end.

(** [translateImageContent]: the requests sent, and how the promise
    settles.  The [catch] logs and rethrows, so every error passes through
    unchanged. *)
Definition translateImageContent (base64Image : string)
  : list GenerateRequest * Settled (list TranslationItem) :=
  match getGeminiClient with
  | Rejected error => ([], Rejected error)
  | Resolved _ =>
      let request := {| model := "gemini-2.5-flash";
                        mimeType := "image/jpeg";
                        data := cleanBase64 base64Image |} in
      match generateContent request with
      | Rejected error => ([request], Rejected error)
      | Resolved None => ([request], Resolved [])
      | Resolved (Some text) =>
          if String.eqb text "" then ([request], Resolved [])
          else ([request], JSON_parse text)
      end
  end.

End GeminiService.

(** * App.tsx *)

(** The props [App] passes to [SplitViewer]. *)
Definition viewer_props_of (imageData : string) (translations : list TranslationItem)
  : SplitViewerProps :=
  {| imageData := imageData; translations := translations |}.

Module App.

Inductive AppState := IDLE | CAMERA | PROCESSING | VIEWING | ERROR.

(** The four [useState] cells of [App]. *)
Record State := {
  appState : AppState;
  imageData : option string;
  translations : list TranslationItem;
  errorMsg : option string
}.

Definition initial : State :=
  {| appState := IDLE; imageData := None; translations := []; errorMsg := None |}.

Definition setAppState (v : AppState) (a : State) : State :=
  {| appState := v; imageData := imageData a; translations := translations a;
     errorMsg := errorMsg a |}.

(** [processImage] up to its [await]. *)
Definition processImage_begin (imageSrc : string) (a : State) : State :=
  {| appState := PROCESSING; imageData := Some imageSrc;
     translations := translations a; errorMsg := None |}.

(** [processImage] after its [await]: the [try] continuation or the
    [catch], run on the state of that moment. *)
Definition processImage_settle (r : Settled (list TranslationItem)) (a : State) : State :=
  match r with
  | Resolved result =>
      {| appState := VIEWING; imageData := imageData a;
         translations := result; errorMsg := errorMsg a |}
  | Rejected _ =>
      {| appState := ERROR; imageData := imageData a;
         translations := translations a;
         errorMsg := Some "Failed to translate image. Please try again."%string |}
  end.

Definition resetApp (a : State) : State :=
  {| appState := IDLE; imageData := None; translations := []; errorMsg := None |}.

(** What [App] shows. *)
Inductive Screen :=
| Landing
| Camera
| Spinner
| ErrorCard (message : option string)
| Viewer (viewer_props : SplitViewerProps).

(** The children of the root [div], one conditional each; [imageData &&]
    also fails on the empty string. *)
Definition screens (a : State) : list Screen :=
  (match appState a with IDLE => [Landing] | _ => [] end) ++
  (match appState a with CAMERA => [Camera] | _ => [] end) ++
  (match appState a with PROCESSING => [Spinner] | _ => [] end) ++
  (match appState a with ERROR => [ErrorCard (errorMsg a)] | _ => [] end) ++
  (match appState a, imageData a with
   | VIEWING, Some src =>
       if String.eqb src "" then []
       else [Viewer (viewer_props_of src (translations a))]
   | _, _ => []
   end).

(** What can happen to [App]: the buttons, a captured or uploaded image
    entering [processImage], and a pending translation settling. *)
Inductive Action :=
| TakePhoto
| CancelCamera
| ImageChosen (imageSrc : string)
| TranslationSettled (r : Settled (list TranslationItem))
| Reset.

Definition handle (a : State) (ev : Action) : State :=
  match ev with
  | TakePhoto => setAppState CAMERA a
  | CancelCamera => setAppState IDLE a
  | ImageChosen imageSrc => processImage_begin imageSrc a
  | TranslationSettled r => processImage_settle r a
  | Reset => resetApp a
  end.

Definition handle_all (a : State) (evs : list Action) : State := fold_left handle evs a.

(** [processImage] with its one call of [translateImageContent], when
    nothing else happens in between. *)
Definition processImage
    (API_KEY : option string)
    (generateContent : GenerateRequest -> Settled (option string))
    (JSON_parse : string -> Settled (list TranslationItem))
    (imageSrc : string) (a : State) : State :=
  processImage_settle
    (snd (translateImageContent API_KEY generateContent JSON_parse imageSrc))
    (processImage_begin imageSrc a).

End App.

(** The message of the error card. *)
Definition failure_message : string := "Failed to translate image. Please try again.".

(** * Properties *)

(** ** Binary64 arithmetic

    The primitive operations are specified by [Prim2SF] and the operations on
    [spec_float]; the lemmas below derive the order and rounding facts the
    handlers rely on. *)

Lemma is_nan_spec (f : float) : is_nan f = true <-> Prim2SF f = S754_nan.
Proof.
  split.
  - intros H. unfold Prim2SF. now rewrite H.
  - intros H. unfold is_nan. rewrite FloatAxioms.eqb_spec, H. reflexivity.
Qed.

Lemma not_nan_spec (f : float) : is_nan f = false <-> Prim2SF f <> S754_nan.
Proof.
  rewrite <- is_nan_spec. destruct (is_nan f); split; congruence.
Qed.

Lemma SFcompare_antisym (a b : spec_float) :
  SFcompare b a = option_map CompOpp (SFcompare a b).
Proof.
  destruct a as [sa|sa| |sa ma ea], b as [sb|sb| |sb mb eb]; simpl; try reflexivity;
    try (destruct sa; reflexivity); try (destruct sb; reflexivity);
    try (destruct sa, sb; reflexivity).
  destruct sa, sb; simpl; try reflexivity.
  - rewrite (Z.compare_antisym ea eb).
    destruct (ea ?= eb)%Z; simpl; try reflexivity.
    f_equal. f_equal. symmetry. exact (Pos.compare_cont_antisym ma mb Eq).
  - rewrite (Z.compare_antisym ea eb).
    destruct (ea ?= eb)%Z; simpl; try reflexivity.
    f_equal. symmetry. exact (Pos.compare_cont_antisym ma mb Eq).
Qed.

Lemma digits2_pos_size (p : positive) : digits2_pos p = Pos.size p.
Proof. induction p; simpl; congruence. Qed.

Lemma digits2_pos_bounds (p : positive) :
  (2 ^ (Zpos (digits2_pos p) - 1) <= Zpos p < 2 ^ Zpos (digits2_pos p))%Z.
Proof.
  rewrite digits2_pos_size. split.
  - pose proof (Pos.size_le p) as H.
    assert (Hz : (2 ^ Zpos (Pos.size p) <= 2 * Zpos p)%Z).
    { change (2 * Zpos p)%Z with (Zpos p~0). rewrite <- Pos2Z.inj_pow. exact H. }
    replace (Zpos (Pos.size p)) with (Z.succ (Zpos (Pos.size p) - 1))%Z in Hz by lia.
    rewrite Z.pow_succ_r in Hz by lia. lia.
  - pose proof (Pos.size_gt p) as H.
    rewrite <- Pos2Z.inj_pow. exact H.
Qed.

Lemma digits2_pos_unique (p : positive) (k : Z) :
  (2 ^ (k - 1) <= Zpos p < 2 ^ k)%Z -> Zpos (digits2_pos p) = k.
Proof.
  intros [Hlo Hhi]. pose proof (digits2_pos_bounds p) as [Dlo Dhi].
  set (d := Zpos (digits2_pos p)) in *.
  assert (0 < d)%Z by (subst d; lia).
  destruct (Z.lt_trichotomy d k) as [Hlt | [Heq | Hgt]]; [ | exact Heq | ].
  - exfalso. assert (2 ^ d <= 2 ^ (k - 1))%Z by (apply Z.pow_le_mono_r; lia). lia.
  - exfalso.
    assert (0 <= k)%Z.
    { destruct (Z.le_gt_cases 0 k); [assumption|].
      rewrite (Z.pow_neg_r 2 k) in Hhi by lia. lia. }
    assert (2 ^ k <= 2 ^ (d - 1))%Z by (apply Z.pow_le_mono_r; lia). lia.
Qed.

Lemma shr_1_m (mrs : shr_record) :
  (0 <= shr_m mrs)%Z -> shr_m (shr_1 mrs) = (shr_m mrs / 2)%Z.
Proof.
  destruct mrs as [m r s]. simpl. intros Hm.
  destruct m as [|p|p]; [reflexivity| |lia].
  destruct p as [p|p|]; simpl.
  - rewrite (Pos2Z.inj_xI p). apply Z.div_unique with (r := 1%Z); lia.
  - rewrite (Pos2Z.inj_xO p). apply Z.div_unique with (r := 0%Z); lia.
  - reflexivity.
Qed.

Lemma iter_shr_1_m (n : positive) : forall mrs : shr_record,
  (0 <= shr_m mrs)%Z ->
  shr_m (iter_pos shr_1 n mrs) = (shr_m mrs / 2 ^ Zpos n)%Z.
Proof.
  induction n as [n IH|n IH|]; intros mrs Hm; simpl iter_pos.
  - assert (H1 : (0 <= shr_m (shr_1 mrs))%Z).
    { rewrite shr_1_m by assumption. apply Z.div_pos; lia. }
    assert (H2 : (0 <= shr_m (iter_pos shr_1 n (shr_1 mrs)))%Z).
    { rewrite IH by assumption. apply Z.div_pos; [assumption|]. apply Z.pow_pos_nonneg; lia. }
    rewrite IH by assumption. rewrite IH by assumption. rewrite shr_1_m by assumption.
    rewrite !Z.div_div by (try apply Z.pow_pos_nonneg; lia).
    f_equal. rewrite (Pos2Z.inj_xI n).
    replace (2 * Zpos n + 1)%Z with (1 + Zpos n + Zpos n)%Z by lia.
    rewrite !Z.pow_add_r by lia. lia.
  - assert (H2 : (0 <= shr_m (iter_pos shr_1 n mrs))%Z).
    { rewrite IH by assumption. apply Z.div_pos; [assumption|]. apply Z.pow_pos_nonneg; lia. }
    rewrite IH by assumption. rewrite IH by assumption.
    rewrite !Z.div_div by (try apply Z.pow_pos_nonneg; lia).
    f_equal. rewrite (Pos2Z.inj_xO n).
    replace (2 * Zpos n)%Z with (Zpos n + Zpos n)%Z by lia.
    rewrite !Z.pow_add_r by lia. lia.
  - rewrite shr_1_m by assumption. reflexivity.
Qed.

Lemma round_nearest_even_bounds (m : Z) (l : location) :
  (m <= round_nearest_even m l <= m + 1)%Z.
Proof.
  destruct l as [|[| |]]; simpl; try lia.
  destruct (Z.even m); lia.
Qed.

Lemma shr_record_of_loc_m (m : Z) (l : location) : shr_m (shr_record_of_loc m l) = m.
Proof. destruct l as [|[| |]]; reflexivity. Qed.

Lemma iter_xO_pow (m d : positive) :
  Zpos (Pos.iter xO m d) = (Zpos m * 2 ^ Zpos d)%Z.
Proof.
  induction d as [|d IH] using Pos.peano_ind.
  - simpl. lia.
  - rewrite Pos.iter_succ, Pos2Z.inj_xO, IH, Pos2Z.inj_succ, Z.pow_succ_r by lia. lia.
Qed.

Lemma fexp_normal (e : Z) : (-1021 <= e)%Z -> fexp prec emax e = (e - 53)%Z.
Proof. unfold fexp, SpecFloat.emin, prec, emax. lia. Qed.

Lemma shr_fexp_normal (m : positive) (e : Z) (l : location) :
  (53 <= Zpos (digits2_pos m))%Z -> (-1021 <= Zpos (digits2_pos m) + e)%Z ->
  exists mrs,
    shr_fexp prec emax (Zpos m) e l = (mrs, (e + (Zpos (digits2_pos m) - 53))%Z) /\
    shr_m mrs = (Zpos m / 2 ^ (Zpos (digits2_pos m) - 53))%Z.
Proof.
  intros Hd Hn. unfold shr_fexp. simpl Zdigits2.
  rewrite fexp_normal by assumption.
  replace (Zpos (digits2_pos m) + e - 53 - e)%Z with (Zpos (digits2_pos m) - 53)%Z by lia.
  destruct (Zpos (digits2_pos m) - 53)%Z as [|n|n] eqn:En.
  - exists (shr_record_of_loc (Zpos m) l). simpl. split.
    + f_equal. lia.
    + rewrite shr_record_of_loc_m. now rewrite Z.div_1_r.
  - exists (iter_pos shr_1 n (shr_record_of_loc (Zpos m) l)). simpl. split.
    + reflexivity.
    + rewrite iter_shr_1_m by (rewrite shr_record_of_loc_m; lia).
      now rewrite shr_record_of_loc_m.
  - lia.
Qed.

Lemma binary_round_aux_normal (sx : bool) (M : positive) (ex : Z) (lx : location) :
  (53 <= Zpos (digits2_pos M))%Z ->
  (-1074 <= ex + Zpos (digits2_pos M) - 53)%Z ->
  (ex + Zpos (digits2_pos M) - 53 + 1 <= 971)%Z ->
  exists mf ef,
    binary_round_aux prec emax sx (Zpos M) ex lx = S754_finite sx mf ef /\
    (2 ^ 52 <= Zpos mf < 2 ^ 53)%Z /\
    (ef = ex + Zpos (digits2_pos M) - 53 \/
     (ef = ex + Zpos (digits2_pos M) - 53 + 1 /\ Zpos mf = 2 ^ 52))%Z.
Proof.
  intros Hd Hlo Hhi. set (d := Zpos (digits2_pos M)) in *.
  unfold binary_round_aux.
  destruct (shr_fexp_normal M ex lx) as (mrs1 & E1 & Hm1); fold d; [lia|lia|].
  fold d in E1, Hm1. rewrite E1.
  assert (Hb1 : (2 ^ 52 <= shr_m mrs1 < 2 ^ 53)%Z).
  { rewrite Hm1. pose proof (digits2_pos_bounds M) as [Blo Bhi]. fold d in Blo, Bhi.
    assert (Hp : (0 < 2 ^ (d - 53))%Z) by (apply Z.pow_pos_nonneg; lia).
    split.
    - apply Z.div_le_lower_bound; [assumption|].
      rewrite <- Z.pow_add_r by lia. replace (d - 53 + 52)%Z with (d - 1)%Z by lia. assumption.
    - apply Z.div_lt_upper_bound; [assumption|].
      rewrite <- Z.pow_add_r by lia. replace (d - 53 + 53)%Z with d by lia. assumption. }
  pose proof (round_nearest_even_bounds (shr_m mrs1) (loc_of_shr_record mrs1)) as Hr.
  set (m1 := round_nearest_even (shr_m mrs1) (loc_of_shr_record mrs1)) in *.
  destruct m1 as [|q|q] eqn:Eq1; [lia| |lia].
  destruct (Z.eq_dec (Zpos q) (2 ^ 53)) as [Hq | Hq].
  - assert (Dq : Zpos (digits2_pos q) = 54%Z).
    { apply digits2_pos_unique. rewrite Hq. change (54 - 1)%Z with 53%Z. split; [lia|].
      apply Z.pow_lt_mono_r; lia. }
    destruct (shr_fexp_normal q (ex + (d - 53)) loc_Exact) as (mrs2 & E2 & Hm2);
      rewrite ?Dq; [lia|lia|].
    rewrite Dq in E2, Hm2. rewrite E2. rewrite Hm2, Hq.
    change (2 ^ 53 / 2 ^ (54 - 53))%Z with (Zpos (2 ^ 52)).
    assert (Hle : (ex + (d - 53) + (54 - 53) <=? emax - prec)%Z = true).
    { apply Z.leb_le. unfold emax, prec. lia. }
    rewrite Hle. exists (2 ^ 52)%positive, (ex + (d - 53) + (54 - 53))%Z.
    split; [reflexivity|]. split; [split; [reflexivity | reflexivity]|].
    right. split; [lia | reflexivity].
  - assert (Dq : Zpos (digits2_pos q) = 53%Z).
    { apply digits2_pos_unique. change (53 - 1)%Z with 52%Z. lia. }
    destruct (shr_fexp_normal q (ex + (d - 53)) loc_Exact) as (mrs2 & E2 & Hm2);
      rewrite ?Dq; [lia|lia|].
    rewrite Dq in E2, Hm2. rewrite E2. rewrite Hm2.
    change (2 ^ (53 - 53))%Z with 1%Z. rewrite Z.div_1_r.
    assert (Hle : (ex + (d - 53) + (53 - 53) <=? emax - prec)%Z = true).
    { apply Z.leb_le. unfold emax, prec. lia. }
    rewrite Hle. exists q, (ex + (d - 53) + (53 - 53))%Z.
    split; [reflexivity|]. split; [lia|]. left. lia.
Qed.

Lemma shr_fexp_nonneg (m e : Z) (l : location) :
  (0 <= m)%Z -> (0 <= shr_m (fst (shr_fexp prec emax m e l)))%Z.
Proof.
  intros Hm. unfold shr_fexp, shr.
  destruct (fexp prec emax (Zdigits2 m + e) - e)%Z as [|n|n]; simpl;
    rewrite ?iter_shr_1_m, shr_record_of_loc_m; rewrite ?shr_record_of_loc_m; try assumption.
  apply Z.div_pos; [assumption|]. apply Z.pow_pos_nonneg; lia.
Qed.

Lemma binary_round_aux_not_nan (sx : bool) (mx ex : Z) (lx : location) :
  (0 <= mx)%Z -> binary_round_aux prec emax sx mx ex lx <> S754_nan.
Proof.
  intros Hm. unfold binary_round_aux.
  pose proof (shr_fexp_nonneg mx ex lx Hm) as H1.
  destruct (shr_fexp prec emax mx ex lx) as [mrs1 e1]. simpl in H1.
  pose proof (round_nearest_even_bounds (shr_m mrs1) (loc_of_shr_record mrs1)) as Hr.
  assert (H2 : (0 <= round_nearest_even (shr_m mrs1) (loc_of_shr_record mrs1))%Z) by lia.
  pose proof (shr_fexp_nonneg _ e1 loc_Exact H2) as H3.
  destruct (shr_fexp prec emax _ e1 loc_Exact) as [mrs2 e2]. simpl in H3.
  destruct (shr_m mrs2) as [|p|p]; [discriminate| |lia].
  destruct (e2 <=? emax - prec)%Z; discriminate.
Qed.

Lemma binary_round_not_nan (sx : bool) (mx : positive) (ex : Z) :
  binary_round prec emax sx mx ex <> S754_nan.
Proof.
  unfold binary_round.
  destruct (shl_align mx ex _) as [mz ez].
  apply binary_round_aux_not_nan. lia.
Qed.

Lemma binary_normalize_not_nan (m e : Z) (sz : bool) :
  binary_normalize prec emax m e sz <> S754_nan.
Proof.
  destruct m; simpl; [discriminate| |]; apply binary_round_not_nan.
Qed.

(** Sums and products that cannot be NaN. *)
Lemma SFadd_finite_not_nan (s : bool) (m : positive) (e : Z) (b : spec_float) :
  b <> S754_nan -> SFadd prec emax (S754_finite s m e) b <> S754_nan.
Proof.
  intros Hb. destruct b as [sb|sb| |sb mb eb]; simpl; try discriminate; try congruence.
  apply binary_normalize_not_nan.
Qed.

Lemma SFmul_finite_not_nan (a : spec_float) (s : bool) (m : positive) (e : Z) :
  a <> S754_nan -> SFmul prec emax a (S754_finite s m e) <> S754_nan.
Proof.
  intros Ha. destruct a as [sa|sa| |sa ma ea]; simpl; try discriminate; try congruence.
  apply binary_round_aux_not_nan. lia.
Qed.

Lemma SFopp_not_nan (a : spec_float) : a <> S754_nan -> SFopp a <> S754_nan.
Proof. destruct a; simpl; congruence. Qed.

Lemma ltb_leb (a b : float) : (a <? b)%float = true -> (a <=? b)%float = true.
Proof.
  rewrite FloatAxioms.ltb_spec, FloatAxioms.leb_spec. unfold SFltb, SFleb.
  destruct (SFcompare (Prim2SF a) (Prim2SF b)) as [[| |]|]; congruence.
Qed.

Lemma ltb_asym (a b : float) : (a <? b)%float = true -> (b <? a)%float = false.
Proof.
  rewrite !FloatAxioms.ltb_spec. unfold SFltb.
  rewrite (SFcompare_antisym (Prim2SF a) (Prim2SF b)).
  destruct (SFcompare (Prim2SF a) (Prim2SF b)) as [[| |]|]; simpl; congruence.
Qed.

Lemma SFcompare_not_nan (a b : spec_float) :
  a <> S754_nan -> b <> S754_nan -> SFcompare a b <> None.
Proof.
  destruct a as [sa|sa| |sa ma ea], b as [sb|sb| |sb mb eb]; simpl; congruence.
Qed.

Lemma not_ltb_leb (a b : float) :
  is_nan a = false -> is_nan b = false ->
  (a <? b)%float = false -> (b <=? a)%float = true.
Proof.
  rewrite !not_nan_spec. intros Ha Hb.
  rewrite FloatAxioms.ltb_spec, FloatAxioms.leb_spec. unfold SFltb, SFleb.
  rewrite (SFcompare_antisym (Prim2SF a) (Prim2SF b)).
  pose proof (SFcompare_not_nan _ _ Ha Hb) as Hc.
  destruct (SFcompare (Prim2SF a) (Prim2SF b)) as [[| |]|]; simpl; congruence.
Qed.

Lemma leb_not_nan (a b : float) :
  (a <=? b)%float = true -> is_nan a = false /\ is_nan b = false.
Proof.
  rewrite FloatAxioms.leb_spec, !not_nan_spec. unfold SFleb.
  destruct (Prim2SF a) as [sa|sa| |sa ma ea], (Prim2SF b) as [sb|sb| |sb mb eb];
    simpl; intros H; split; congruence.
Qed.

Lemma ltb_not_nan (a b : float) :
  (a <? b)%float = true -> is_nan a = false /\ is_nan b = false.
Proof. intros H. apply leb_not_nan, ltb_leb, H. Qed.

Lemma compare_cont_Eq (a b : positive) :
  PosDef.Pos.compare_cont Eq a b = (Zpos a ?= Zpos b)%Z.
Proof. reflexivity. Qed.

Lemma Prim2SF_half : Prim2SF 0.5 = S754_finite false 4503599627370496 (-53).
Proof. vm_compute. reflexivity. Qed.
Lemma Prim2SF_eight : Prim2SF 8 = S754_finite false 4503599627370496 (-49).
Proof. vm_compute. reflexivity. Qed.
Lemma Prim2SF_quarter : Prim2SF 0.25 = S754_finite false 4503599627370496 (-54).
Proof. vm_compute. reflexivity. Qed.

(** A number between 0.5 and 8 has a 53-bit mantissa and an exponent from
    -53 to -49, the last only for 8 itself. *)
Lemma in_range_spec (s : float) :
  (0.5 <=? s)%float = true -> (s <=? 8)%float = true ->
  exists m e, Prim2SF s = S754_finite false m e /\
    (2 ^ 52 <= Zpos m < 2 ^ 53)%Z /\ (-53 <= e <= -49)%Z /\
    (e = (-49)%Z -> Zpos m = (2 ^ 52)%Z).
Proof.
  rewrite !FloatAxioms.leb_spec, Prim2SF_half, Prim2SF_eight.
  pose proof (Prim2SF_valid s) as Hv.
  destruct (Prim2SF s) as [sg|sg| |sg m e]; unfold SFleb; cbn [SFcompare];
    try (destruct sg; discriminate); try discriminate.
  destruct sg; [discriminate|].
  rewrite !compare_cont_Eq.
  intros Hlo Hhi. exists m, e. split; [reflexivity|].
  assert (He : (-53 <= e <= -49)%Z).
  { split.
    - destruct (Z.compare_spec (-53) e); try lia; discriminate.
    - destruct (Z.compare_spec e (-49)); try lia; discriminate. }
  assert (Hd : Zpos (digits2_pos m) = 53%Z).
  { cbn [valid_binary] in Hv. unfold bounded, canonical_mantissa in Hv.
    apply andb_prop in Hv. destruct Hv as [Hc _]. apply Z.eqb_eq in Hc.
    unfold fexp, SpecFloat.emin, prec, emax in Hc. lia. }
  pose proof (digits2_pos_bounds m) as Hb. rewrite Hd in Hb.
  change (53 - 1)%Z with 52%Z in Hb.
  split; [exact Hb|]. split; [exact He|].
  intros E. subst e. rewrite Z.compare_refl in Hhi.
  destruct (Z.compare_spec (Zpos m) 4503599627370496); try discriminate; [|].
  - change (2 ^ 52)%Z with 4503599627370496%Z. assumption.
  - change (2 ^ 52)%Z with 4503599627370496%Z in *. lia.
Qed.

Lemma digits2_pos_gt (p : positive) (k : Z) :
  (0 <= k)%Z -> (2 ^ k <= Zpos p)%Z -> (k + 1 <= Zpos (digits2_pos p))%Z.
Proof.
  intros Hk Hp. pose proof (digits2_pos_bounds p) as [_ Hhi].
  assert (2 ^ k < 2 ^ Zpos (digits2_pos p))%Z as Hlt by lia.
  apply Z.pow_lt_mono_r_iff in Hlt; lia.
Qed.

Lemma digits2_pos_le (p : positive) (k : Z) :
  (0 <= k)%Z -> (Zpos p < 2 ^ k)%Z -> (Zpos (digits2_pos p) <= k)%Z.
Proof.
  intros Hk Hp. pose proof (digits2_pos_bounds p) as [Hlo _].
  assert (2 ^ (Zpos (digits2_pos p) - 1) < 2 ^ k)%Z as Hlt by lia.
  apply Z.pow_lt_mono_r_iff in Hlt; lia.
Qed.

Lemma binary_round_normal (sx : bool) (M : positive) (ex : Z) :
  (53 <= Zpos (digits2_pos M))%Z ->
  (-1074 <= ex + Zpos (digits2_pos M) - 53)%Z ->
  (ex + Zpos (digits2_pos M) - 53 + 1 <= 971)%Z ->
  exists mf ef,
    binary_round prec emax sx M ex = S754_finite sx mf ef /\
    (2 ^ 52 <= Zpos mf < 2 ^ 53)%Z /\
    (ef = ex + Zpos (digits2_pos M) - 53 \/
     (ef = ex + Zpos (digits2_pos M) - 53 + 1 /\ Zpos mf = 2 ^ 52))%Z.
Proof.
  intros Hd Hlo Hhi. unfold binary_round, shl_align.
  rewrite fexp_normal by lia.
  destruct (Zpos (digits2_pos M) + ex - 53 - ex)%Z eqn:E; try lia;
    now apply binary_round_aux_normal.
Qed.

Lemma SFcompare_Eq_finite (a : spec_float) (s : bool) (m : positive) (e : Z) :
  SFcompare a (S754_finite s m e) = Some Eq -> a = S754_finite s m e.
Proof.
  destruct a as [sa|sa| |sa ma ea]; cbn [SFcompare];
    try (destruct sa; discriminate); try (destruct s; discriminate); try discriminate.
  rewrite compare_cont_Eq.
  destruct sa, s; try discriminate;
    destruct (Z.compare_spec ea e); try discriminate;
    destruct (Z.compare_spec (Zpos ma) (Zpos m)); try discriminate;
    intros _; subst; f_equal; congruence.
Qed.

(** Two numbers neither of which is below the other are the same number,
    when one of them is finite and not zero. *)
Lemma not_ltb_eq (a b : float) (s : bool) (m : positive) (e : Z) :
  Prim2SF b = S754_finite s m e -> is_nan a = false ->
  (a <? b)%float = false -> (b <? a)%float = false -> a = b.
Proof.
  intros Hb Ha. rewrite !FloatAxioms.ltb_spec. unfold SFltb.
  rewrite (SFcompare_antisym (Prim2SF a) (Prim2SF b)).
  apply not_nan_spec in Ha.
  assert (Hbn : Prim2SF b <> S754_nan) by (rewrite Hb; discriminate).
  pose proof (SFcompare_not_nan _ _ Ha Hbn) as Hc.
  destruct (SFcompare (Prim2SF a) (Prim2SF b)) as [[| |]|] eqn:E;
    cbn [option_map CompOpp]; try discriminate; try congruence.
  intros _ _. rewrite Hb in E. apply SFcompare_Eq_finite in E.
  apply Prim2SF_inj. congruence.
Qed.

Lemma leb_cases (a b : float) (s : bool) (m : positive) (e : Z) :
  Prim2SF b = S754_finite s m e ->
  (a <=? b)%float = true -> (a <? b)%float = true \/ a = b.
Proof.
  intros Hb Hle. destruct (a <? b)%float eqn:Hlt; [now left|right].
  apply leb_not_nan in Hle as Hn. destruct Hn as [Ha _].
  apply (not_ltb_eq a b s m e Hb Ha Hlt).
  destruct (b <? a)%float eqn:Hgt; [|reflexivity].
  revert Hle Hgt. rewrite FloatAxioms.leb_spec, FloatAxioms.ltb_spec. unfold SFleb, SFltb.
  rewrite (SFcompare_antisym (Prim2SF a) (Prim2SF b)).
  destruct (SFcompare (Prim2SF a) (Prim2SF b)) as [[| |]|]; cbn [option_map CompOpp]; congruence.
Qed.

Lemma is_nan_half : is_nan 0.5 = false. Proof. reflexivity. Qed.
Lemma is_nan_eight : is_nan 8 = false. Proof. reflexivity. Qed.
Lemma get_sign_half : get_sign 0.5 = false. Proof. reflexivity. Qed.
Lemma get_sign_eight : get_sign 8 = false. Proof. reflexivity. Qed.

Lemma Math_max_half (t : float) :
  is_nan t = false -> Math_max 0.5 t = if (0.5 <? t)%float then t else 0.5%float.
Proof.
  intros Ht. unfold Math_max. rewrite Ht, is_nan_half, get_sign_half. cbn [orb].
  destruct (0.5 <? t)%float; [reflexivity|]. now destruct (t <? 0.5)%float.
Qed.

Lemma Math_min_eight_r (t : float) :
  is_nan t = false -> Math_min t 8 = if (t <? 8)%float then t else 8%float.
Proof.
  intros Ht. unfold Math_min. rewrite Ht, is_nan_eight. cbn [orb].
  destruct (t <? 8)%float eqn:H1; [reflexivity|].
  destruct (8 <? t)%float eqn:H2; [reflexivity|].
  rewrite (not_ltb_eq t 8 _ _ _ Prim2SF_eight Ht H1 H2). now rewrite get_sign_eight.
Qed.

Lemma Math_min_eight_l (t : float) :
  is_nan t = false -> Math_min 8 t = if (t <? 8)%float then t else 8%float.
Proof.
  intros Ht. unfold Math_min. rewrite Ht, is_nan_eight, get_sign_eight. cbn [orb].
  destruct (8 <? t)%float eqn:H2.
  - now rewrite (ltb_asym _ _ H2).
  - destruct (t <? 8)%float eqn:H1; [reflexivity|].
    exact (not_ltb_eq t 8 _ _ _ Prim2SF_eight Ht H1 H2).
Qed.

Lemma eight_ltb_half_ltb (t : float) : (8 <? t)%float = true -> (0.5 <? t)%float = true.
Proof.
  rewrite !FloatAxioms.ltb_spec, Prim2SF_half, Prim2SF_eight. unfold SFltb.
  destruct (Prim2SF t) as [sg|sg| |sg m e]; cbn [SFcompare];
    try (destruct sg; congruence); try congruence.
  destruct sg; [congruence|].
  destruct (Z.compare_spec (-49) e); destruct (Z.compare_spec (-53) e);
    try congruence; try lia.
Qed.

Lemma shl_align_quarter (m : positive) (e : Z) :
  (-53 <= e <= -49)%Z ->
  exists P, (2 <= P <= 32)%Z /\ (e <= -50 -> P <= 16)%Z /\
    Zpos (fst (shl_align m e (-54))) = (Zpos m * P)%Z.
Proof.
  intros He. unfold shl_align.
  destruct (-54 - e)%Z as [|d|d] eqn:Ed; try lia.
  cbn [fst]. rewrite iter_xO_pow. exists (2 ^ Zpos d)%Z.
  assert (Hd : (1 <= Zpos d <= 5)%Z) by lia.
  split; [|split; [|reflexivity]].
  - split.
    + change 2%Z with (2 ^ 1)%Z at 1. apply Z.pow_le_mono_r; lia.
    + change 32%Z with (2 ^ 5)%Z. apply Z.pow_le_mono_r; lia.
  - intros H. change 16%Z with (2 ^ 4)%Z. apply Z.pow_le_mono_r; lia.
Qed.

Lemma add_quarter_ge_half (s : float) :
  (0.5 <=? s)%float = true -> (s <=? 8)%float = true ->
  (0.5 <=? s + 0.25)%float = true.
Proof.
  intros Hlo Hhi.
  destruct (in_range_spec s Hlo Hhi) as (m & e & Hs & Hm & He & _).
  rewrite FloatAxioms.leb_spec, FloatAxioms.add_spec, Hs, Prim2SF_quarter, Prim2SF_half.
  unfold SF64add, SFadd. rewrite Z.min_r by lia.
  destruct (shl_align_quarter m e He) as (P & HP & _ & HM).
  unfold cond_Zopp.
  assert (Hq : shl_align 4503599627370496 (-54) (-54) = (4503599627370496%positive, (-54)%Z))
    by reflexivity.
  rewrite Hq. cbn [fst].
  destruct (Zpos (fst (shl_align m e (-54))) + Zpos 4503599627370496)%Z as [|M|M] eqn:EM;
    try lia.
  cbn [binary_normalize].
  change (2 ^ 52)%Z with 4503599627370496%Z in Hm.
  change (2 ^ 53)%Z with 9007199254740992%Z in Hm.
  assert (HMlo : (2 ^ 53 <= Zpos M)%Z).
  { change (2 ^ 53)%Z with 9007199254740992%Z. nia. }
  assert (HMhi : (Zpos M < 2 ^ 59)%Z).
  { change (2 ^ 59)%Z with 576460752303423488%Z. nia. }
  pose proof (digits2_pos_gt M 53 ltac:(lia) HMlo) as D1.
  pose proof (digits2_pos_le M 59 ltac:(lia) HMhi) as D2.
  destruct (binary_round_normal false M (-54)) as (mf & ef & Er & Hmf & Hef); try lia.
  rewrite Er. unfold SFleb. cbn [SFcompare]. rewrite compare_cont_Eq.
  change (2 ^ 52)%Z with 4503599627370496%Z in Hmf.
  destruct (Z.compare_spec (-53) ef); try reflexivity; try lia.
  destruct (Z.compare_spec 4503599627370496 (Zpos mf)); try reflexivity; lia.
Qed.

Lemma sub_quarter_le_eight (s : float) :
  (0.5 <=? s)%float = true -> (s <=? 8)%float = true ->
  (s - 0.25 <=? 8)%float = true.
Proof.
  intros Hlo Hhi.
  destruct (in_range_spec s Hlo Hhi) as (m & e & Hs & Hm & He & Htop).
  rewrite FloatAxioms.leb_spec, FloatAxioms.sub_spec, Hs, Prim2SF_quarter, Prim2SF_eight.
  unfold SF64sub, SFsub. rewrite Z.min_r by lia.
  destruct (shl_align_quarter m e He) as (P & HP & HP16 & HM).
  unfold cond_Zopp.
  assert (Hq : shl_align 4503599627370496 (-54) (-54) = (4503599627370496%positive, (-54)%Z))
    by reflexivity.
  rewrite Hq. cbn [fst].
  change (2 ^ 52)%Z with 4503599627370496%Z in Hm, Htop.
  change (2 ^ 53)%Z with 9007199254740992%Z in Hm.
  destruct (Zpos (fst (shl_align m e (-54))) - Zpos 4503599627370496)%Z as [|M|M] eqn:EM;
    try nia.
  cbn [binary_normalize].
  assert (HMlo : (2 ^ 52 <= Zpos M)%Z).
  { change (2 ^ 52)%Z with 4503599627370496%Z. nia. }
  assert (HMhi : (Zpos M < 2 ^ 57)%Z).
  { change (2 ^ 57)%Z with 144115188075855872%Z.
    destruct (Z.eq_dec e (-49)) as [E49|N49].
    - specialize (Htop E49). nia.
    - assert (P <= 16)%Z by (apply HP16; lia). nia. }
  pose proof (digits2_pos_gt M 52 ltac:(lia) HMlo) as D1.
  pose proof (digits2_pos_le M 57 ltac:(lia) HMhi) as D2.
  destruct (binary_round_normal false M (-54)) as (mf & ef & Er & Hmf & Hef); try lia.
  rewrite Er. unfold SFleb. cbn [SFcompare]. rewrite compare_cont_Eq.
  change (2 ^ 52)%Z with 4503599627370496%Z in Hmf, Hef.
  destruct (Z.compare_spec ef (-49)); try reflexivity; try lia.
  destruct (Z.compare_spec (Zpos mf) 4503599627370496); try reflexivity; lia.
Qed.

Lemma Prim2SF_sensitivity : exists m e, Prim2SF 0.002 = S754_finite false m e.
Proof. eexists _, _. vm_compute. reflexivity. Qed.

(** The sum [handleWheel] clamps is a number whenever [deltaY] is. *)
Lemma wheel_sum_not_nan (s deltaY : float) :
  (0.5 <=? s)%float = true -> (s <=? 8)%float = true -> is_nan deltaY = false ->
  is_nan (s + - deltaY * 0.002)%float = false.
Proof.
  intros Hlo Hhi Hd.
  destruct (in_range_spec s Hlo Hhi) as (m & e & Hs & _).
  destruct Prim2SF_sensitivity as (mk & ek & Hk).
  apply not_nan_spec. apply not_nan_spec in Hd.
  rewrite FloatAxioms.add_spec, FloatAxioms.mul_spec, FloatAxioms.opp_spec, Hs, Hk.
  apply SFadd_finite_not_nan, SFmul_finite_not_nan, SFopp_not_nan, Hd.
Qed.

(** ** Evaluating the handlers and the transition system *)

Lemma run_app (natural : string -> float * float) (m : Mounted) (evs1 evs2 : list Event) :
  run natural m (evs1 ++ evs2) = run natural (run natural m evs1) evs2.
Proof. unfold run. apply fold_left_app. Qed.

Lemma run_snoc (natural : string -> float * float) (m : Mounted) (evs : list Event) (ev : Event) :
  run natural m (evs ++ [ev]) = step natural (run natural m evs) ev.
Proof. now rewrite run_app. Qed.

(** ** The shared transform *)

(** C1. After any sequence of events on any image, region list and opacity,
    the original pane and the translated pane of one render carry the same
    transform, and once the image has loaded it is the current pan and zoom
    of the one [viewState]. *)
Theorem C1_panes_share_transform
    (natural : string -> float * float) (p : SplitViewerProps) (evs : list Event) :
  let m := run natural (mount p) evs in
  pane_transform (fst (renderPanes (props m) (state m))) =
  pane_transform (snd (renderPanes (props m) (state m))) /\
  pane_transform (snd (renderPanes (props m) (state m))) =
  option_map
    (fun _ => {| translate_x := x (viewState (state m));
                 translate_y := y (viewState (state m));
                 scale_factor := scale (viewState (state m)) |})
    (imageDims (state m)).
Proof.
  intros m. unfold renderPanes, renderImageContent, pane_transform. cbn [fst snd].
  destruct (imageDims (state m)) as [dims|]; cbn [option_map transform]; split; reflexivity.
Qed.

(** ** What each handler leaves alone *)

(** C10. Zooming (wheel, [-], [+]) changes at most the scale and keeps the
    pan; a pointer move keeps the scale; pointer down and pointer up keep the
    whole view transform; a pointer move while not dragging changes
    nothing at all. *)
Theorem C10_handler_frames
    (rendered_scale deltaY : float) (v : ViewState) (e : PointerEvent)
    (s : SplitViewerState) :
  (x (handleWheel rendered_scale deltaY v) = x v /\
   y (handleWheel rendered_scale deltaY v) = y v) /\
  (x (zoomOut v) = x v /\ y (zoomOut v) = y v) /\
  (x (zoomIn v) = x v /\ y (zoomIn v) = y v) /\
  scale (viewState (handleMouseMove e s)) = scale (viewState s) /\
  viewState (handleMouseDown e s) = viewState s /\
  viewState (handleMouseUp s) = viewState s /\
  handleMouseMove e (with_isDragging s false) = with_isDragging s false.
Proof.
  repeat split; try reflexivity.
  unfold handleMouseMove. destruct (isDragging s); reflexivity.
Qed.

(** ** Dragging *)

(** C7. A pointer down starts the drag and records the pointer position as
    the anchor, leaving the pan alone; while dragging, a pointer move adds
    the offset from the last recorded position to the pan and records the new
    position, so that a second move adds its offset from the first move's
    position, not from the press.  A mouse event is read from its
    clientX/clientY and a touch event from its first touch.  The drag
    (0,0), (10,5), (10,5), (20,5) from the initial view pans by (20,5), the
    repeated point changing nothing, and so does the same drag pressed by
    touch at (100,40) on a view already panned to (3,4). *)
Theorem C7_drag_accumulates
    (natural : string -> float * float) (p : SplitViewerProps)
    (e : PointerEvent) (s : SplitViewerState)
    (px py qx qy rx ry : float) (fingers1 fingers2 fingers3 : list Position) :
  (let s' := handleMouseMove e (with_isDragging s true) in
   x (viewState s') = (x (viewState s) + (clientX_of e - pos_x (lastPosition s)))%float /\
   y (viewState s') = (y (viewState s) + (clientY_of e - pos_y (lastPosition s)))%float /\
   lastPosition s' = {| pos_x := clientX_of e; pos_y := clientY_of e |} /\
   isDragging s' = true) /\
  (let drag1 := [PointerDown (MouseEv 0 0); PointerMove (MouseEv 10 5)] in
   let drag2 := drag1 ++ [PointerMove (MouseEv 10 5)] in
   let drag3 := drag2 ++ [PointerMove (MouseEv 20 5)] in
   viewState (state (run natural (mount p) drag1)) = {| scale := 1; x := 10; y := 5 |} /\
   viewState (state (run natural (mount p) drag2)) = {| scale := 1; x := 10; y := 5 |} /\
   viewState (state (run natural (mount p) drag3)) = {| scale := 1; x := 20; y := 5 |}) /\
  (let pressed := handleMouseDown (MouseEv px py) s in
   let moved := handleMouseMove (MouseEv qx qy) pressed in
   let moved_again := handleMouseMove (MouseEv rx ry) moved in
   isDragging pressed = true /\
   lastPosition pressed = {| pos_x := px; pos_y := py |} /\
   viewState pressed = viewState s /\
   viewState moved =
     {| scale := scale (viewState s);
        x := (x (viewState s) + (qx - px))%float;
        y := (y (viewState s) + (qy - py))%float |} /\
   lastPosition moved = {| pos_x := qx; pos_y := qy |} /\
   viewState moved_again =
     {| scale := scale (viewState s);
        x := (x (viewState s) + (qx - px) + (rx - qx))%float;
        y := (y (viewState s) + (qy - py) + (ry - qy))%float |} /\
   lastPosition moved_again = {| pos_x := rx; pos_y := ry |}) /\
  (let pressed := handleMouseDown (TouchEv {| pos_x := px; pos_y := py |} fingers1) s in
   let moved := handleMouseMove (TouchEv {| pos_x := qx; pos_y := qy |} fingers2) pressed in
   let moved_again :=
     handleMouseMove (TouchEv {| pos_x := rx; pos_y := ry |} fingers3) moved in
   isDragging pressed = true /\
   lastPosition pressed = {| pos_x := px; pos_y := py |} /\
   viewState pressed = viewState s /\
   viewState moved =
     {| scale := scale (viewState s);
        x := (x (viewState s) + (qx - px))%float;
        y := (y (viewState s) + (qy - py))%float |} /\
   lastPosition moved = {| pos_x := qx; pos_y := qy |} /\
   viewState moved_again =
     {| scale := scale (viewState s);
        x := (x (viewState s) + (qx - px) + (rx - qx))%float;
        y := (y (viewState s) + (qy - py) + (ry - qy))%float |} /\
   lastPosition moved_again = {| pos_x := rx; pos_y := ry |}) /\
  (let first_drag :=
     [PointerDown (MouseEv 0 0); PointerMove (MouseEv 3 4); PointerUp] in
   let second_drag :=
     [PointerDown (TouchEv {| pos_x := 100; pos_y := 40 |} [{| pos_x := 7; pos_y := 7 |}]);
      PointerMove (TouchEv {| pos_x := 110; pos_y := 45 |} [{| pos_x := 8; pos_y := 9 |}]);
      PointerMove (TouchEv {| pos_x := 110; pos_y := 45 |} [{| pos_x := 8; pos_y := 9 |}]);
      PointerMove (TouchEv {| pos_x := 120; pos_y := 45 |} [])] in
   viewState (state (run natural (mount p) first_drag)) = {| scale := 1; x := 3; y := 4 |} /\
   viewState (state (run natural (mount p) (first_drag ++ second_drag))) =
     {| scale := 1; x := 23; y := 9 |}).
Proof.
  split; [|split; [|split; [|split]]].
  - repeat split.
  - repeat split.
  - repeat split.
  - repeat split.
  - repeat split.
Qed.

(** ** Geometry on the 0-1000 grid *)

Lemma in_grid_table (lo : Z) (n : nat) (z : Z) :
  (lo <= z < lo + Z.of_nat n)%Z -> In (z, js_of_Z z) (grid_table lo n).
Proof.
  intros Hz. unfold grid_table. apply in_map_iff.
  exists (Z.to_nat (z - lo)). split.
  - cbv zeta. rewrite Z2Nat.id by lia. replace (lo + (z - lo))%Z with z by lia. reflexivity.
  - apply in_seq. lia.
Qed.

Lemma on_grid_spec (z : Z) : on_grid z = true <-> (0 <= z <= 1000)%Z.
Proof. unfold on_grid. rewrite andb_true_iff, !Z.leb_le. reflexivity. Qed.

Lemma all_pairs_sound (P : Z * float -> Z * float -> bool) (lo : Z) (n : nat) :
  all_pairs P lo n = true ->
  forall a b : Z, (lo <= a < lo + Z.of_nat n)%Z -> (lo <= b < lo + Z.of_nat n)%Z ->
  P (a, js_of_Z a) (b, js_of_Z b) = true.
Proof.
  unfold all_pairs. cbv zeta. intros H a b Ha Hb.
  rewrite forallb_forall in H. specialize (H _ (in_grid_table lo n a Ha)).
  rewrite forallb_forall in H. exact (H _ (in_grid_table lo n b Hb)).
Qed.

Lemma grid_differences_exact : all_pairs difference_exact 0 1001 = true.
Proof. vm_compute. reflexivity. Qed.

Lemma grid_orientation_exact : all_pairs orientation_exact (-1000) 2001 = true.
Proof. vm_compute. reflexivity. Qed.

(** Subtraction of grid coordinates does not round. *)
Lemma grid_sub_exact (a b : Z) :
  on_grid a = true -> on_grid b = true ->
  (js_of_Z a - js_of_Z b)%float = js_of_Z (a - b).
Proof.
  rewrite !on_grid_spec. intros Ha Hb.
  pose proof (all_pairs_sound difference_exact 0 1001 grid_differences_exact
                a b ltac:(lia) ltac:(lia)) as H.
  unfold difference_exact in H. cbn [fst snd] in H.
  now apply FloatAxioms.Leibniz.eqb_spec in H.
Qed.

(** The orientation test on differences of grid coordinates is the exact
    comparison of [10 h] with [13 w]. *)
Lemma grid_orientation (hh ww : Z) :
  (-1000 <= hh <= 1000)%Z -> (-1000 <= ww <= 1000)%Z ->
  js_gt (js_of_Z hh) (js_of_Z ww * 1.3)%float = (13 * ww <? 10 * hh)%Z.
Proof.
  intros Hh Hw.
  pose proof (all_pairs_sound orientation_exact (-1000) 2001 grid_orientation_exact
                ww hh ltac:(lia) ltac:(lia)) as H.
  unfold orientation_exact in H. cbn [fst snd] in H. now apply Bool.eqb_prop in H.
Qed.

(** C2. For a region box on the 0-1000 grid the overlay is placed at
    top = ymin/10, left = xmin/10, width = (xmax-xmin)/10 and
    height = (ymax-ymin)/10 percent, the differences being the exact integer
    differences; the box (100, 200, 300, 600) on an image of aspect ratio 1
    is placed at top 10, left 20, width 40, height 20. *)
Theorem C2_overlay_placement :
  (forall (opacity : float) (idx : nat) (orig txt : js_string) (ymin xmin ymax xmax : Z),
     on_grid ymin = true -> on_grid xmin = true ->
     on_grid ymax = true -> on_grid xmax = true ->
     placement (renderOverlay opacity (grid_item orig txt ymin xmin ymax xmax) idx) =
     ((js_of_Z ymin / 10)%float, (js_of_Z xmin / 10)%float,
      (js_of_Z (xmax - xmin) / 10)%float, (js_of_Z (ymax - ymin) / 10)%float)) /\
  (forall (s : SplitViewerState) (wd ht : float) (src : string) (orig txt : js_string),
     pane_placements
       (renderImageContent
          {| imageData := src; translations := [grid_item orig txt 100 200 300 600] |}
          (with_imageDims s (Some {| w := wd; h := ht; ratio := 1 |}))
          translated) =
     Some [(10, 20, 40, 20)%float]).
Proof.
  split.
  - intros opacity idx orig txt ymin xmin ymax xmax Hy0 Hx0 Hy1 Hx1.
    unfold placement, renderOverlay, grid_item, box_coord.
    cbn [top left width height box_2d nth].
    now rewrite (grid_sub_exact xmax xmin Hx1 Hx0), (grid_sub_exact ymax ymin Hy1 Hy0).
  - intros. reflexivity.
Qed.

Lemma C2_overlay_placement_witness :
  placement (renderOverlay 0.8 (grid_item [] [] 100 200 300 600) 0) =
  (10, 20, 40, 20)%float.
Proof.
  exact (proj1 C2_overlay_placement 0.8%float 0%nat [] [] 100%Z 200%Z 300%Z 600%Z
           eq_refl eq_refl eq_refl eq_refl).
Defined.

(** C3. A region is vertical exactly when its height exceeds 1.3 times its
    width, strictly: on the grid this is [10 (ymax-ymin) > 13 (xmax-xmin)], so
    a box 130 high and 100 wide is horizontal and one 131 high and 100 wide
    is vertical. *)
Theorem C3_orientation :
  (forall (orig txt : js_string) (ymin xmin ymax xmax : Z),
     on_grid ymin = true -> on_grid xmin = true ->
     on_grid ymax = true -> on_grid xmax = true ->
     isVertical_of (grid_item orig txt ymin xmin ymax xmax) =
     (13 * (xmax - xmin) <? 10 * (ymax - ymin))%Z) /\
  (forall item : TranslationItem,
     (box_coord (box_2d item) 2 - box_coord (box_2d item) 0)%float = 130%float ->
     (box_coord (box_2d item) 3 - box_coord (box_2d item) 1)%float = 100%float ->
     isVertical_of item = false) /\
  (forall item : TranslationItem,
     (box_coord (box_2d item) 2 - box_coord (box_2d item) 0)%float = 131%float ->
     (box_coord (box_2d item) 3 - box_coord (box_2d item) 1)%float = 100%float ->
     isVertical_of item = true) /\
  (forall (opacity : float) (item : TranslationItem) (idx : nat),
     writingMode (renderOverlay opacity item idx) =
     if isVertical_of item then vertical_rl else horizontal_tb).
Proof.
  split; [|split; [|split]].
  - intros orig txt ymin xmin ymax xmax Hy0 Hx0 Hy1 Hx1.
    unfold isVertical_of, grid_item, box_coord. cbn [box_2d nth].
    rewrite (grid_sub_exact xmax xmin Hx1 Hx0), (grid_sub_exact ymax ymin Hy1 Hy0).
    apply on_grid_spec in Hy0, Hx0, Hy1, Hx1.
    apply grid_orientation; lia.
  - intros item Hh Hw. unfold isVertical_of. rewrite Hh, Hw. reflexivity.
  - intros item Hh Hw. unfold isVertical_of. rewrite Hh, Hw. reflexivity.
  - reflexivity.
Qed.

Lemma C3_orientation_witness :
  isVertical_of (grid_item [] [] 100 200 230 300) = false /\
  isVertical_of (grid_item [] [] 100 200 231 300) = true.
Proof.
  split.
  - exact (proj1 C3_orientation [] [] 100%Z 200%Z 230%Z 300%Z
             eq_refl eq_refl eq_refl eq_refl).
  - exact (proj1 C3_orientation [] [] 100%Z 200%Z 231%Z 300%Z
             eq_refl eq_refl eq_refl eq_refl).
Defined.

(** ** Text fitting *)

(** C4. With len = max(1, translatedText.length), so that an empty text
    counts as length 1 and the divisor is never zero, the font size is
    min(85cqh, (95/len)cqw) for horizontal text and min(85cqw, (95/len)cqh)
    for vertical text, and the line height is 1.1 for vertical and 1 (that
    is, 1.0) for horizontal text. *)
Theorem C4_text_fit (opacity : float) (item : TranslationItem) (idx : nat) :
  let len := Nat.max 1 (js_length (translatedText item)) in
  let o := renderOverlay opacity item idx in
  textLen_of item = len /\
  len <> 0%nat /\
  fontSize o =
    (if isVertical_of item
     then css_min {| amount := 85; unit := cqw |}
                  {| amount := (95 / js_of_Z (Z.of_nat len))%float; unit := cqh |}
     else css_min {| amount := 85; unit := cqh |}
                  {| amount := (95 / js_of_Z (Z.of_nat len))%float; unit := cqw |}) /\
  css_number (lineHeight o) = Some (if isVertical_of item then 1.1 else 1)%float /\
  css_number (lineHeight o) = css_number (if isVertical_of item then "1.1" else "1.0").
Proof.
  intros len o.
  assert (Hlen : textLen_of item = len).
  { unfold textLen_of, len. destruct (js_length (translatedText item)); reflexivity. }
  split; [exact Hlen|]. split; [unfold len; lia|].
  unfold o, renderOverlay. cbn [fontSize lineHeight]. rewrite Hlen.
  fold (isVertical_of item).
  destruct (isVertical_of item); repeat split; reflexivity.
Qed.

(** ** The zoom clamp *)

Lemma leb_cases_l (a b : float) (s : bool) (m : positive) (e : Z) :
  Prim2SF a = S754_finite s m e ->
  (a <=? b)%float = true -> (a <? b)%float = true \/ a = b.
Proof.
  intros Ha Hle. destruct (a <? b)%float eqn:Hlt; [now left|right].
  apply leb_not_nan in Hle as Hn. destruct Hn as [_ Hb].
  symmetry. apply (not_ltb_eq b a s m e Ha Hb); [|exact Hlt].
  destruct (b <? a)%float eqn:Hgt; [|reflexivity].
  revert Hle Hgt. rewrite FloatAxioms.leb_spec, FloatAxioms.ltb_spec. unfold SFleb, SFltb.
  rewrite (SFcompare_antisym (Prim2SF a) (Prim2SF b)).
  destruct (SFcompare (Prim2SF a) (Prim2SF b)) as [[| |]|]; cbn [option_map CompOpp]; congruence.
Qed.

Lemma scale_in_range_spec (v : float) :
  scale_in_range v = true <-> (0.5 <=? v)%float = true /\ (v <=? 8)%float = true.
Proof. unfold scale_in_range. apply andb_true_iff. Qed.

(** The clamp of a number: inside the bounds, at 8 above them, at 0.5
    below them, and the number itself when it is already inside. *)
Lemma clamp_scale_spec (t : float) :
  is_nan t = false ->
  scale_in_range (clamp_scale t) = true /\
  ((8 <? t)%float = true -> clamp_scale t = 8%float) /\
  ((t <? 0.5)%float = true -> clamp_scale t = 0.5%float) /\
  (scale_in_range t = true -> clamp_scale t = t).
Proof.
  intros Ht. unfold clamp_scale. rewrite (Math_max_half t Ht).
  destruct (0.5 <? t)%float eqn:Hlo.
  - rewrite (Math_min_eight_r t Ht).
    destruct (t <? 8)%float eqn:Hhi.
    + split; [|split; [|split]].
      * apply scale_in_range_spec. split; now apply ltb_leb.
      * intros H. apply ltb_asym in H. congruence.
      * intros H. apply ltb_asym in H. congruence.
      * reflexivity.
    + split; [reflexivity|]. split; [reflexivity|]. split.
      * intros H. apply ltb_asym in H. congruence.
      * intros H. apply scale_in_range_spec in H. destruct H as [_ H].
        destruct (leb_cases t 8 _ _ _ Prim2SF_eight H); congruence.
  - rewrite (Math_min_eight_r 0.5 is_nan_half).
    change (0.5 <? 8)%float with true. cbv iota.
    split; [reflexivity|]. split; [|split].
    + intros H. apply eight_ltb_half_ltb in H. congruence.
    + reflexivity.
    + intros H. apply scale_in_range_spec in H. destruct H as [H _].
      destruct (leb_cases_l 0.5 t _ _ _ Prim2SF_half H); congruence.
Qed.

(** The one-sided clamps of the buttons are the two-sided clamp when the
    other bound cannot be crossed. *)
Lemma Math_max_half_clamp (u : float) :
  (u <=? 8)%float = true -> Math_max 0.5 u = clamp_scale u.
Proof.
  intros Hu. destruct (leb_not_nan _ _ Hu) as [Hn _].
  unfold clamp_scale. rewrite (Math_max_half u Hn).
  destruct (0.5 <? u)%float eqn:Hlo.
  - rewrite (Math_min_eight_r u Hn).
    destruct (u <? 8)%float eqn:Hhi; [reflexivity|].
    destruct (leb_cases u 8 _ _ _ Prim2SF_eight Hu); congruence.
  - reflexivity.
Qed.

Lemma Math_min_eight_clamp (u : float) :
  (0.5 <=? u)%float = true -> Math_min 8 u = clamp_scale u.
Proof.
  intros Hu. destruct (leb_not_nan _ _ Hu) as [_ Hn].
  unfold clamp_scale. rewrite (Math_max_half u Hn), (Math_min_eight_l u Hn).
  destruct (0.5 <? u)%float eqn:Hlo.
  - now rewrite (Math_min_eight_r u Hn).
  - destruct (leb_cases_l 0.5 u _ _ _ Prim2SF_half Hu) as [H|H]; [congruence|].
    rewrite <- H. reflexivity.
Qed.

(** C5. From a scale in [0.5, 8], a wheel event with any numeric deltaY
    sets the scale to clamp(scale + (-deltaY * 0.002), 0.5, 8) and the
    buttons set it to the same clamp of scale - 0.25 and scale + 0.25; the
    result always lies in [0.5, 8], and a change that would cross a bound
    stops at that bound. *)
Theorem C5_scale_stays_in_range
    (rendered_scale deltaY : float) (prev v : ViewState) :
  scale_in_range rendered_scale = true ->
  scale_in_range (scale v) = true ->
  is_nan deltaY = false ->
  let t := (rendered_scale + - deltaY * 0.002)%float in
  (scale (handleWheel rendered_scale deltaY prev) = clamp_scale t /\
   scale (zoomOut v) = clamp_scale (scale v - 0.25)%float /\
   scale (zoomIn v) = clamp_scale (scale v + 0.25)%float) /\
  (scale_in_range (scale (handleWheel rendered_scale deltaY prev)) = true /\
   scale_in_range (scale (zoomOut v)) = true /\
   scale_in_range (scale (zoomIn v)) = true) /\
  ((8 <? t)%float = true -> scale (handleWheel rendered_scale deltaY prev) = 8%float) /\
  ((t <? 0.5)%float = true -> scale (handleWheel rendered_scale deltaY prev) = 0.5%float) /\
  ((scale v - 0.25 <? 0.5)%float = true -> scale (zoomOut v) = 0.5%float) /\
  ((8 <? scale v + 0.25)%float = true -> scale (zoomIn v) = 8%float).
Proof.
  intros Hr Hv Hd t.
  apply scale_in_range_spec in Hr, Hv. destruct Hr as [Hr1 Hr2], Hv as [Hv1 Hv2].
  pose proof (wheel_sum_not_nan rendered_scale deltaY Hr1 Hr2 Hd) as Ht. fold t in Ht.
  pose proof (sub_quarter_le_eight (scale v) Hv1 Hv2) as Hsub.
  pose proof (add_quarter_ge_half (scale v) Hv1 Hv2) as Hadd.
  destruct (leb_not_nan _ _ Hsub) as [Hsn _].
  destruct (leb_not_nan _ _ Hadd) as [_ Han].
  assert (Ew : scale (handleWheel rendered_scale deltaY prev) = clamp_scale t) by reflexivity.
  assert (Eo : scale (zoomOut v) = clamp_scale (scale v - 0.25)%float).
  { unfold zoomOut. cbn [scale]. now apply Math_max_half_clamp. }
  assert (Ei : scale (zoomIn v) = clamp_scale (scale v + 0.25)%float).
  { unfold zoomIn. cbn [scale]. now apply Math_min_eight_clamp. }
  rewrite Ew, Eo, Ei.
  destruct (clamp_scale_spec t Ht) as (W1 & W2 & W3 & _).
  destruct (clamp_scale_spec _ Hsn) as (O1 & _ & O3 & _).
  destruct (clamp_scale_spec _ Han) as (I1 & I2 & _ & _).
  repeat split; assumption.
Qed.

Lemma C5_scale_stays_in_range_witness :
  scale (handleWheel 1 (-5000) {| scale := 1; x := 0; y := 0 |}) = 8%float /\
  scale (zoomOut {| scale := 0.5; x := 0; y := 0 |}) = 0.5%float /\
  scale (zoomIn {| scale := 8; x := 0; y := 0 |}) = 8%float.
Proof.
  pose proof (C5_scale_stays_in_range 1 (-5000) {| scale := 1; x := 0; y := 0 |}
                {| scale := 0.5; x := 0; y := 0 |} eq_refl eq_refl eq_refl) as Hlow.
  pose proof (C5_scale_stays_in_range 1 (-5000) {| scale := 1; x := 0; y := 0 |}
                {| scale := 8; x := 0; y := 0 |} eq_refl eq_refl eq_refl) as Hhigh.
  cbv zeta in Hlow, Hhigh.
  destruct Hlow as (_ & _ & Hw & _ & Ho & _).
  destruct Hhigh as (_ & _ & _ & _ & _ & Hi).
  split; [apply Hw; reflexivity|]. split; [apply Ho; reflexivity|apply Hi; reflexivity].
Defined.

(** ** The overlay layer *)

Lemma map_indexed_length {A B : Type} (f : A -> nat -> B) (l : list A) (k : nat) :
  List.length (map_indexed f l k) = List.length l.
Proof.
  revert k. induction l as [|a l IH]; intros k; cbn [map_indexed List.length]; [reflexivity|].
  now rewrite IH.
Qed.

Lemma map_indexed_nth_error {A B : Type} (f : A -> nat -> B) (l : list A) (k i : nat) :
  nth_error (map_indexed f l k) i = option_map (fun a => f a (k + i)%nat) (nth_error l i).
Proof.
  revert k i. induction l as [|a l IH]; intros k i.
  - destruct i; reflexivity.
  - destruct i as [|i]; cbn [map_indexed nth_error option_map].
    + now rewrite Nat.add_0_r.
    + rewrite IH. now rewrite Nat.add_succ_comm.
Qed.

(** The placement of an overlay is computed from the coordinates as they
    are, whatever they are. *)
Lemma placement_raw (opacity : float) (item : TranslationItem) (idx : nat) :
  placement (renderOverlay opacity item idx) =
  ((box_coord (box_2d item) 0 / 10)%float,
   (box_coord (box_2d item) 1 / 10)%float,
   ((box_coord (box_2d item) 3 - box_coord (box_2d item) 1) / 10)%float,
   ((box_coord (box_2d item) 2 - box_coord (box_2d item) 0) / 10)%float).
Proof. reflexivity. Qed.

(** C6 as stated fails: the inverted box (300, 200, 100, 600) is drawn with
    height -20, where the clamp ymax = max(ymax, ymin+1) would give 0.1. *)
Lemma C6_counterexample :
  placement (renderOverlay 0.8 inverted_item 0) = (30, 20, 40, -20)%float /\
  placement (renderOverlay 0.8 (spec_clamp_box inverted_item) 0) = (30, 20, 40, 0.1)%float /\
  placement (renderOverlay 0.8 inverted_item 0) <>
  placement (renderOverlay 0.8 (spec_clamp_box inverted_item) 0).
Proof.
  split; [reflexivity|]. split; [reflexivity|].
  intros H. apply (f_equal (fun p => (snd p <? 0)%float)) in H.
  vm_compute in H. discriminate.
Qed.

(** C6, amended. The renderer does not clamp or reject a box: once the
    image has loaded, the translated pane is drawn with one overlay per
    region, in order, each placed from the region's coordinates exactly as
    they are (a missing coordinate counting as NaN), malformed or not. *)
Theorem C6_boxes_drawn_as_given
    (p : SplitViewerProps) (s : SplitViewerState) (dims : ImageDims) :
  imageDims s = Some dims ->
  exists pane layer,
    renderImageContent p s translated = Some pane /\
    overlayLayer pane = Some layer /\
    List.length layer = List.length (translations p) /\
    forall (i : nat) (item : TranslationItem),
      nth_error (translations p) i = Some item ->
      exists o,
        nth_error layer i = Some o /\
        key o = i /\
        placement o =
        ((box_coord (box_2d item) 0 / 10)%float,
         (box_coord (box_2d item) 1 / 10)%float,
         ((box_coord (box_2d item) 3 - box_coord (box_2d item) 1) / 10)%float,
         ((box_coord (box_2d item) 2 - box_coord (box_2d item) 0) / 10)%float).
Proof.
  intros Hd. unfold renderImageContent. rewrite Hd.
  eexists _, _. split; [reflexivity|]. cbn [overlayLayer]. split; [reflexivity|].
  split; [apply map_indexed_length|].
  intros i item Hi. rewrite map_indexed_nth_error, Hi. cbn [option_map].
  eexists. split; [reflexivity|]. split; [reflexivity|]. apply placement_raw.
Qed.

Lemma C6_boxes_drawn_as_given_witness :
  exists pane layer,
    renderImageContent {| imageData := "A"; translations := [inverted_item] |}
      (onload 1200 800 initialState) translated = Some pane /\
    overlayLayer pane = Some layer /\
    map placement layer = [(30, 20, 40, -20)%float].
Proof.
  destruct (C6_boxes_drawn_as_given
              {| imageData := "A"; translations := [inverted_item] |}
              (onload 1200 800 initialState)
              {| w := 1200; h := 800; ratio := 1.5 |} eq_refl)
    as (pane & layer & Hp & Hl & _ & _).
  exists pane, layer. split; [exact Hp|]. split; [exact Hl|].
  cbv in Hp. injection Hp as <-. cbv in Hl. injection Hl as <-. reflexivity.
Defined.

(** ** The end-to-end scenario *)

(** C8 as stated fails: the text U+55E8 has length 1, not 2, so the
    font size is min(85cqh, 95cqw), not min(85cqh, 47.5cqw). *)
Lemma C8_counterexample :
  js_length hai = 1%nat /\
  fontSize (renderOverlay 0.8 (grid_item [] hai 0 0 500 1000) 0) =
    css_min {| amount := 85; unit := cqh |} {| amount := 95; unit := cqw |} /\
  ~ (isVertical_of (grid_item [] hai 0 0 500 1000) = false /\
     placement (renderOverlay 0.8 (grid_item [] hai 0 0 500 1000) 0) =
       (0, 0, 100, 50)%float /\
     fontSize (renderOverlay 0.8 (grid_item [] hai 0 0 500 1000) 0) =
       css_min {| amount := 85; unit := cqh |} {| amount := 47.5; unit := cqw |}).
Proof.
  split; [reflexivity|]. split; [reflexivity|].
  intros (_ & _ & H).
  apply (f_equal (fun f => match f with css_min _ b => (amount b <? 50)%float end)) in H.
  vm_compute in H. discriminate.
Qed.

(** C8, amended. For the 1200x800 image (ratio 1.5) and the single region
    with box (0, 0, 500, 1000): the region is non-vertical and placed at
    top 0, left 0, width 100, height 50; with the text U+55E8, of length 1,
    the font size is min(85cqh, 95cqw), and with any text of length 2 it is
    min(85cqh, 47.5cqw). *)
Theorem C8_scenario
    (s : SplitViewerState) (src : string) (orig : js_string) (c1 c2 : code_unit) :
  let loaded := onload 1200 800 s in
  let pane_of txt :=
    renderImageContent {| imageData := src; translations := [grid_item orig txt 0 0 500 1000] |}
      loaded translated in
  option_map aspectRatio (pane_of hai) = Some 1.5%float /\
  isVertical_of (grid_item orig hai 0 0 500 1000) = false /\
  pane_placements (pane_of hai) = Some [(0, 0, 100, 50)%float] /\
  option_map (fun pane => option_map (map fontSize) (overlayLayer pane)) (pane_of hai) =
    Some (Some [css_min {| amount := 85; unit := cqh |} {| amount := 95; unit := cqw |}]) /\
  js_length [c1; c2] = 2%nat /\
  pane_placements (pane_of [c1; c2]) = Some [(0, 0, 100, 50)%float] /\
  option_map (fun pane => option_map (map fontSize) (overlayLayer pane)) (pane_of [c1; c2]) =
    Some (Some [css_min {| amount := 85; unit := cqh |} {| amount := 47.5; unit := cqw |}]).
Proof. repeat split. Qed.

(** ** Image loads *)

(** C9 as stated fails: source "A" is replaced by "B" while its load is in
    flight; "B" loads, then the stale load of "A" completes and its
    dimensions replace those of "B", although [imageData] is "B". *)
Lemma C9_counterexample :
  imageData (props stale_scenario) = "B"%string /\
  nth_error (inFlight stale_scenario) 0 = Some "A"%string /\
  imageDims (state stale_scenario) = Some {| w := 600; h := 600; ratio := 1 |} /\
  imageData (props (step natural_example stale_scenario (ImageLoaded 0))) = "B"%string /\
  imageDims (state (step natural_example stale_scenario (ImageLoaded 0))) =
    Some {| w := 1200; h := 800; ratio := 1.5 |} /\
  imageDims (state (step natural_example stale_scenario (ImageLoaded 0))) <>
  imageDims (state stale_scenario).
Proof.
  repeat split.
  intros H.
  apply (f_equal (fun d => match d with
                           | Some dims => (ratio dims <? 1.2)%float
                           | None => false
                           end)) in H.
  vm_compute in H. discriminate.
Qed.

(** C9, amended. No source identity is checked: when a load completes, for
    the current source or for one already replaced, the dimension state
    becomes the natural dimensions of the image that loaded; props, view
    transform and the other loads in flight are untouched. *)
Theorem C9_load_overwrites_dimensions
    (natural : string -> float * float) (m : Mounted) (n : nat) (src : string) :
  nth_error (inFlight m) n = Some src ->
  let m' := step natural m (ImageLoaded n) in
  imageDims (state m') =
    Some {| w := fst (natural src); h := snd (natural src);
            ratio := (fst (natural src) / snd (natural src))%float |} /\
  props m' = props m /\
  viewState (state m') = viewState (state m) /\
  inFlight m' = remove_nth n (inFlight m).
Proof.
  intros Hn. cbn [step]. unfold imageLoaded. rewrite Hn. repeat split.
Qed.

Lemma C9_load_overwrites_dimensions_witness :
  imageData (props stale_scenario) = "B"%string /\
  option_map ratio (imageDims (state (step natural_example stale_scenario (ImageLoaded 0)))) =
  Some 1.5%float.
Proof.
  split; [reflexivity|].
  destruct (C9_load_overwrites_dimensions natural_example stale_scenario
              0 "A" eq_refl) as (H & _).
  rewrite H. reflexivity.
Defined.

(** * Further properties of the viewer *)

(** ** The zoom factor along a session *)

Lemma handleWheel_in_range (rendered_scale deltaY : float) (prev : ViewState) :
  scale_in_range rendered_scale = true -> is_nan deltaY = false ->
  scale_in_range (scale (handleWheel rendered_scale deltaY prev)) = true.
Proof.
  intros Hr Hd. apply scale_in_range_spec in Hr. destruct Hr as [H1 H2].
  exact (proj1 (clamp_scale_spec _ (wheel_sum_not_nan rendered_scale deltaY H1 H2 Hd))).
Qed.

Lemma zoomOut_in_range (v : ViewState) :
  scale_in_range (scale v) = true -> scale_in_range (scale (zoomOut v)) = true.
Proof.
  intros Hv. apply scale_in_range_spec in Hv. destruct Hv as [H1 H2].
  pose proof (sub_quarter_le_eight (scale v) H1 H2) as Hsub.
  unfold zoomOut. cbn [scale]. rewrite (Math_max_half_clamp _ Hsub).
  apply clamp_scale_spec. now destruct (leb_not_nan _ _ Hsub).
Qed.

Lemma zoomIn_in_range (v : ViewState) :
  scale_in_range (scale v) = true -> scale_in_range (scale (zoomIn v)) = true.
Proof.
  intros Hv. apply scale_in_range_spec in Hv. destruct Hv as [H1 H2].
  pose proof (add_quarter_ge_half (scale v) H1 H2) as Hadd.
  unfold zoomIn. cbn [scale]. rewrite (Math_min_eight_clamp _ Hadd).
  apply clamp_scale_spec. now destruct (leb_not_nan _ _ Hadd).
Qed.

Lemma step_scale_in_range (natural : string -> float * float) (m : Mounted) (ev : Event) :
  numeric_wheel ev = true ->
  scale_in_range (scale (viewState (state m))) = true ->
  scale_in_range (scale (viewState (state (step natural m ev)))) = true.
Proof.
  intros Hev Hm. destruct ev as [d|e|e| | | | |v|p|n|n]; cbn [step with_state state]; try exact Hm.
  - cbn [with_viewState viewState]. apply handleWheel_in_range; [exact Hm|].
    cbn [numeric_wheel] in Hev. now apply negb_true_iff in Hev.
  - unfold handleMouseMove. destruct (isDragging (state m)); exact Hm.
  - cbn [with_viewState viewState]. now apply zoomOut_in_range.
  - cbn [with_viewState viewState]. now apply zoomIn_in_range.
  - reflexivity.
  - unfold imageLoaded. destruct (nth_error (inFlight m) n); exact Hm.
Qed.

(** Throughout a session the zoom factor stays within [0.5, 8]: whatever
    wheel, pointer, button, slider, prop and load events arrive, in whatever
    order, as long as every wheel delta is a number. *)
Theorem scale_in_range_along_session
    (natural : string -> float * float) (p : SplitViewerProps) (evs : list Event) :
  forallb numeric_wheel evs = true ->
  scale_in_range (scale (viewState (state (run natural (mount p) evs)))) = true.
Proof.
  intros Hevs.
  assert (H : forall m, scale_in_range (scale (viewState (state m))) = true ->
                        scale_in_range (scale (viewState (state (run natural m evs)))) = true).
  { induction evs as [|ev evs IH]; intros m Hm; [exact Hm|].
    cbn [forallb] in Hevs. apply andb_true_iff in Hevs. destruct Hevs as [Hev Hevs].
    unfold run. cbn [fold_left]. apply (IH Hevs). now apply step_scale_in_range. }
  apply H. reflexivity.
Qed.

Lemma scale_in_range_along_session_witness :
  scale_in_range
    (scale (viewState (state
       (run natural_example (mount propsA)
          [Wheel (-9000); ClickPlus; Wheel 9000; ClickMinus; ClickReset; Wheel 120])))) = true.
Proof.
  apply (scale_in_range_along_session natural_example propsA
           [Wheel (-9000); ClickPlus; Wheel 9000; ClickMinus; ClickReset; Wheel 120]).
  reflexivity.
Defined.

(** ** Dragging along a session *)

Lemma with_state_same (m : Mounted) : with_state m (state m) = m.
Proof. now destruct m. Qed.

Lemma handleMouseMove_idle (e : PointerEvent) (s : SplitViewerState) :
  isDragging s = false -> handleMouseMove e s = s.
Proof. intros H. unfold handleMouseMove. now rewrite H. Qed.

Lemma moves_while_idle (natural : string -> float * float) (m : Mounted)
    (es : list PointerEvent) :
  isDragging (state m) = false -> run natural m (map PointerMove es) = m.
Proof.
  intros Hm. induction es as [|e es IH]; [reflexivity|].
  unfold run in *. cbn [map fold_left step].
  rewrite (handleMouseMove_idle e _ Hm), with_state_same. exact IH.
Qed.

(** A release (mouse up, mouse leave or touch end) always ends the drag,
    and the pointer moves that follow it, however many, change nothing
    until the next pointer down. *)
Theorem release_ends_drag
    (natural : string -> float * float) (m : Mounted) (es : list PointerEvent) :
  isDragging (state (step natural m PointerUp)) = false /\
  run natural (step natural m PointerUp) (map PointerMove es) = step natural m PointerUp.
Proof.
  split; [reflexivity|]. now apply moves_while_idle.
Qed.

Lemma step_pointer_scale (natural : string -> float * float) (m : Mounted) (ev : Event) :
  is_pointer_event ev = true ->
  scale (viewState (state (step natural m ev))) = scale (viewState (state m)).
Proof.
  destruct ev; try discriminate; intros _; cbn [step with_state state]; try reflexivity.
  unfold handleMouseMove. destruct (isDragging (state m)); reflexivity.
Qed.

(** Pointer events never zoom: along any sequence of pointer downs, moves
    and releases, by mouse or by touch with any number of fingers, the scale
    is unchanged.  Of a touch event only the first touch is read, the other
    fingers making no difference, so a two-finger gesture pans by the first
    finger's travel at the scale it had. *)
Theorem pointer_events_keep_scale
    (natural : string -> float * float) (m : Mounted) (evs : list Event)
    (s : SplitViewerState) (t0 t1 : Position) (others0 others1 : list Position) :
  (forallb is_pointer_event evs = true ->
   scale (viewState (state (run natural m evs))) = scale (viewState (state m))) /\
  (handleMouseDown (TouchEv t0 others0) s =
     handleMouseDown (MouseEv (pos_x t0) (pos_y t0)) s /\
   handleMouseMove (TouchEv t1 others1) s =
     handleMouseMove (MouseEv (pos_x t1) (pos_y t1)) s) /\
  (let pinched :=
     handleMouseMove (TouchEv t1 others1) (handleMouseDown (TouchEv t0 others0) s) in
   viewState pinched =
     {| scale := scale (viewState s);
        x := (x (viewState s) + (pos_x t1 - pos_x t0))%float;
        y := (y (viewState s) + (pos_y t1 - pos_y t0))%float |} /\
   lastPosition pinched = {| pos_x := pos_x t1; pos_y := pos_y t1 |}).
Proof.
  split; [|split; [split; reflexivity|split; reflexivity]].
  revert m. induction evs as [|ev evs IH]; intros m Hevs; [reflexivity|].
  cbn [forallb] in Hevs. apply andb_true_iff in Hevs. destruct Hevs as [Hev Hevs].
  unfold run in *. cbn [fold_left]. rewrite (IH _ Hevs). now apply step_pointer_scale.
Qed.

Lemma pointer_events_keep_scale_witness :
  scale (viewState (state
    (run natural_example (mount propsA)
       [PointerDown (TouchEv {| pos_x := 10; pos_y := 10 |} [{| pos_x := 90; pos_y := 90 |}]);
        PointerMove (TouchEv {| pos_x := 30; pos_y := 30 |} [{| pos_x := 60; pos_y := 60 |}]);
        PointerUp]))) =
  scale (viewState (state (mount propsA))).
Proof.
  exact (proj1 (pointer_events_keep_scale natural_example (mount propsA)
    [PointerDown (TouchEv {| pos_x := 10; pos_y := 10 |} [{| pos_x := 90; pos_y := 90 |}]);
     PointerMove (TouchEv {| pos_x := 30; pos_y := 30 |} [{| pos_x := 60; pos_y := 60 |}]);
     PointerUp] initialState {| pos_x := 10; pos_y := 10 |} {| pos_x := 30; pos_y := 30 |}
    [{| pos_x := 90; pos_y := 90 |}] [{| pos_x := 60; pos_y := 60 |}]) eq_refl).
Defined.

(** Zooming and pointer handling commute: a zoom event (wheel, [-], [+])
    followed by a pointer event leaves the component in the same state as
    the two in the other order. *)
Theorem zoom_commutes_with_pointer
    (natural : string -> float * float) (m : Mounted) (zoom pointer : Event) :
  is_zoom_event zoom = true -> is_pointer_event pointer = true ->
  run natural m [zoom; pointer] = run natural m [pointer; zoom].
Proof.
  destruct zoom; try discriminate; destruct pointer; try discriminate; intros _ _;
    unfold run; cbn [fold_left step with_state state props inFlight];
    unfold handleMouseMove, handleMouseDown, handleMouseUp;
    cbn [with_viewState with_isDragging with_lastPosition isDragging viewState
         lastPosition imageDims overlayOpacity];
    try reflexivity;
    destruct (isDragging (state m)); reflexivity.
Qed.

Lemma zoom_commutes_with_pointer_witness :
  run natural_example (run natural_example (mount propsA) [PointerDown (MouseEv 0 0)])
    [Wheel (-100); PointerMove (MouseEv 3 4)] =
  run natural_example (run natural_example (mount propsA) [PointerDown (MouseEv 0 0)])
    [PointerMove (MouseEv 3 4); Wheel (-100)].
Proof.
  exact (zoom_commutes_with_pointer natural_example
           (run natural_example (mount propsA) [PointerDown (MouseEv 0 0)])
           (Wheel (-100)) (PointerMove (MouseEv 3 4)) eq_refl eq_refl).
Defined.

(** The wheel handler computes the new scale from the scale it was rendered
    with, not from the state it updates: of two wheel updates made from the
    same render only the second takes effect, whereas presses of [+]
    accumulate. *)
Theorem wheel_updates_from_one_render
    (rendered_scale d1 d2 : float) (prev : ViewState) :
  handleWheel rendered_scale d2 (handleWheel rendered_scale d1 prev) =
  handleWheel rendered_scale d2 prev /\
  scale (zoomIn (zoomIn {| scale := 1; x := x prev; y := y prev |})) = 1.5%float.
Proof. split; reflexivity. Qed.

(** Reset returns to the identity view from anywhere: after any history, a
    press of Reset leaves pan (0,0) and scale 1 and touches nothing else of
    the component, and pressing it again changes nothing. *)
Theorem reset_from_anywhere
    (natural : string -> float * float) (m : Mounted) (evs : list Event) :
  let before := run natural m evs in
  let after := run natural m (evs ++ [ClickReset]) in
  viewState (state after) = {| scale := 1; x := 0; y := 0 |} /\
  (isDragging (state after), imageDims (state after),
   overlayOpacity (state after), lastPosition (state after)) =
  (isDragging (state before), imageDims (state before),
   overlayOpacity (state before), lastPosition (state before)) /\
  (props after, inFlight after) = (props before, inFlight before) /\
  run natural m (evs ++ [ClickReset; ClickReset]) = after.
Proof.
  cbv zeta. rewrite run_snoc.
  change [ClickReset; ClickReset] with ([ClickReset] ++ [ClickReset]).
  rewrite app_assoc, run_snoc, run_snoc. repeat split.
Qed.

(** ** A move that does not move *)

Lemma Prim2SF_infinity : Prim2SF infinity = S754_infinity false.
Proof. reflexivity. Qed.

Lemma Prim2SF_zero : Prim2SF 0 = S754_zero false.
Proof. reflexivity. Qed.

Lemma Prim2SF_neg_zero : Prim2SF neg_zero = S754_zero true.
Proof. reflexivity. Qed.

Lemma is_finite_spec (c : float) :
  is_finite c = true ->
  (exists s, Prim2SF c = S754_zero s) \/ (exists s m e, Prim2SF c = S754_finite s m e).
Proof.
  unfold is_finite. rewrite negb_true_iff, orb_false_iff. intros [Hn Hi].
  apply not_nan_spec in Hn. unfold is_infinity in Hi.
  rewrite FloatAxioms.eqb_spec, FloatAxioms.abs_spec, Prim2SF_infinity in Hi.
  destruct (Prim2SF c) as [s|s| |s m e]; [left; now exists s|discriminate|congruence|].
  right. now exists s, m, e.
Qed.

(** A finite number minus itself is [+0]. *)
Lemma sub_self (c : float) : is_finite c = true -> (c - c)%float = 0%float.
Proof.
  intros Hc. apply Prim2SF_inj. rewrite FloatAxioms.sub_spec, Prim2SF_zero.
  destruct (is_finite_spec c Hc) as [(s & E)|(s & m & e & E)]; rewrite E; unfold SF64sub, SFsub.
  - now destruct s.
  - now rewrite Z.sub_diag.
Qed.

(** Adding [+0] changes no number other than [-0]. *)
Lemma add_zero_r (v : float) : v <> neg_zero -> (v + 0)%float = v.
Proof.
  intros Hv. apply Prim2SF_inj. rewrite FloatAxioms.add_spec, Prim2SF_zero.
  assert (Hz : Prim2SF v <> S754_zero true).
  { intros E. apply Hv, Prim2SF_inj. now rewrite E, Prim2SF_neg_zero. }
  unfold SF64add, SFadd.
  destruct (Prim2SF v) as [s|s| |s m e]; try reflexivity.
  destruct s; [congruence|reflexivity].
Qed.

(** During a drag, a move event at the position already recorded (a
    repeated event, at finite coordinates) leaves the whole state unchanged;
    only a pan component that is the number [-0] would become [+0]. *)
Theorem repeated_position_changes_nothing (e : PointerEvent) (s : SplitViewerState) :
  isDragging s = true ->
  lastPosition s = {| pos_x := clientX_of e; pos_y := clientY_of e |} ->
  is_finite (clientX_of e) = true -> is_finite (clientY_of e) = true ->
  x (viewState s) <> neg_zero -> y (viewState s) <> neg_zero ->
  handleMouseMove e s = s.
Proof.
  intros Hd Hl Hx Hy Hpx Hpy. unfold handleMouseMove. rewrite Hd. cbn [negb].
  rewrite Hl. cbn [pos_x pos_y].
  rewrite (sub_self _ Hx), (sub_self _ Hy), (add_zero_r _ Hpx), (add_zero_r _ Hpy).
  destruct s as [[sc px py] dr dims op lp]. cbn in *. subst. reflexivity.
Qed.

Lemma repeated_position_changes_nothing_witness :
  handleMouseMove (MouseEv 10 5)
    (handleMouseMove (MouseEv 10 5) (handleMouseDown (MouseEv 0 0) initialState)) =
  handleMouseMove (MouseEv 10 5) (handleMouseDown (MouseEv 0 0) initialState).
Proof.
  apply (repeated_position_changes_nothing (MouseEv 10 5)
           (handleMouseMove (MouseEv 10 5) (handleMouseDown (MouseEv 0 0) initialState)));
    try reflexivity.
  - intros H. apply (f_equal (fun v => (1 / v <? 0)%float)) in H. vm_compute in H. discriminate.
  - intros H. apply (f_equal (fun v => (1 / v <? 0)%float)) in H. vm_compute in H. discriminate.
Defined.

(** ** Loading and the blank state *)

Lemma step_not_loaded (natural : string -> float * float) (m : Mounted) (ev : Event) :
  is_image_loaded ev = false ->
  imageDims (state (step natural m ev)) = imageDims (state m).
Proof.
  destruct ev; try discriminate; intros _; cbn [step with_state state]; try reflexivity.
  unfold handleMouseMove. destruct (isDragging (state m)); reflexivity.
Qed.

Lemma run_not_loaded (natural : string -> float * float) (evs : list Event) :
  forallb (fun ev => negb (is_image_loaded ev)) evs = true ->
  forall m, imageDims (state (run natural m evs)) = imageDims (state m).
Proof.
  induction evs as [|ev evs IH]; intros Hevs m; [reflexivity|].
  cbn [forallb] in Hevs. apply andb_true_iff in Hevs. destruct Hevs as [Hev Hevs].
  unfold run in *. cbn [fold_left]. rewrite (IH Hevs).
  apply step_not_loaded. now apply negb_true_iff in Hev.
Qed.

(** Until an image load completes nothing is drawn: from mount, whatever
    else happens (input, new props, failed loads), both panes stay empty. *)
Theorem blank_until_loaded
    (natural : string -> float * float) (p : SplitViewerProps) (evs : list Event) :
  forallb (fun ev => negb (is_image_loaded ev)) evs = true ->
  let m := run natural (mount p) evs in
  renderPanes (props m) (state m) = (None, None).
Proof.
  intros Hevs m.
  unfold renderPanes, renderImageContent. subst m.
  now rewrite (run_not_loaded natural evs Hevs (mount p)).
Qed.

Lemma blank_until_loaded_witness :
  renderPanes
    (props (run natural_example (mount propsA) [Wheel 100; NewProps propsB; ImageFailed 0]))
    (state (run natural_example (mount propsA) [Wheel 100; NewProps propsB; ImageFailed 0])) =
  (None, None).
Proof.
  exact (blank_until_loaded natural_example propsA
           [Wheel 100; NewProps propsB; ImageFailed 0] eq_refl).
Defined.

Lemma step_keeps_loaded (natural : string -> float * float) (m : Mounted) (ev : Event) :
  imageDims (state m) <> None -> imageDims (state (step natural m ev)) <> None.
Proof.
  intros Hm. destruct (is_image_loaded ev) eqn:Hev.
  - destruct ev; try discriminate. cbn [step]. unfold imageLoaded.
    destruct (nth_error (inFlight m) n); [discriminate|exact Hm].
  - now rewrite step_not_loaded.
Qed.

(** Once an image has loaded the viewer never goes blank again, and the
    dimension state is not reset when the source changes: a new source is
    drawn at once, in the wrapper of the previous image's aspect ratio, until
    its own load completes. *)
Theorem dimensions_outlive_the_source
    (natural : string -> float * float) (m : Mounted) (evs : list Event)
    (p : SplitViewerProps) (dims : ImageDims) :
  imageDims (state m) = Some dims ->
  imageDims (state (run natural m evs)) <> None /\
  option_map (fun pane => (img_src pane, aspectRatio pane))
    (renderImageContent (props (step natural m (NewProps p)))
       (state (step natural m (NewProps p))) translated) =
  Some (imageData p, ratio dims).
Proof.
  intros Hm. split.
  - assert (H0 : imageDims (state m) <> None) by congruence.
    clear Hm. revert m H0. induction evs as [|ev evs IH]; intros m H0; [exact H0|].
    unfold run in *. cbn [fold_left]. apply IH. now apply step_keeps_loaded.
  - cbn [step receiveProps props state]. unfold renderImageContent. rewrite Hm. reflexivity.
Qed.

Lemma dimensions_outlive_the_source_witness :
  option_map (fun pane => (img_src pane, aspectRatio pane))
    (renderImageContent
       (props (run natural_example (mount propsA) [ImageLoaded 0; NewProps propsB]))
       (state (run natural_example (mount propsA) [ImageLoaded 0; NewProps propsB]))
       translated) =
  Some ("B"%string, 1.5%float).
Proof.
  exact (proj2 (dimensions_outlive_the_source natural_example
                  (run natural_example (mount propsA) [ImageLoaded 0]) [] propsB
                  {| w := 1200; h := 800; ratio := 1.5 |} eq_refl)).
Defined.

(** ** The two panes and the overlay layer *)

(** The two panes of a render are drawn together or not at all and differ
    in the overlay layer only: the original pane has none, the translated
    pane has one overlay per region. *)
Theorem panes_differ_in_overlay_only (p : SplitViewerProps) (s : SplitViewerState) :
  option_map without_overlay (renderImageContent p s translated) =
  renderImageContent p s original /\
  option_map overlayLayer (renderImageContent p s original) =
  option_map (fun _ => None) (imageDims s) /\
  option_map (fun pane => option_map (@List.length _) (overlayLayer pane))
    (renderImageContent p s translated) =
  option_map (fun _ => Some (List.length (translations p))) (imageDims s).
Proof.
  unfold renderImageContent. destruct (imageDims s); cbn [option_map overlayLayer].
  - repeat split. now rewrite map_indexed_length.
  - repeat split.
Qed.

Lemma map_indexed_map {A B C : Type} (f : A -> nat -> B) (g : B -> C) (h : A -> C)
    (l : list A) (k : nat) :
  (forall a i, g (f a i) = h a) -> map g (map_indexed f l k) = map h l.
Proof.
  intros Hgf. revert k. induction l as [|a l IH]; intros k; cbn [map_indexed map]; [reflexivity|].
  now rewrite Hgf, IH.
Qed.

Lemma map_indexed_keys {A B : Type} (f : A -> nat -> B) (g : B -> nat) (l : list A) (k : nat) :
  (forall a i, g (f a i) = i) -> map g (map_indexed f l k) = seq k (List.length l).
Proof.
  intros Hgf. revert k. induction l as [|a l IH]; intros k;
    cbn [map_indexed map List.length seq]; [reflexivity|].
  now rewrite Hgf, IH.
Qed.

(** The overlay layer follows the region list: overlays are keyed 0, 1, 2,
    ... in input order, each shows its region's translated text, and all of
    them are filled with the current overlay opacity. *)
Theorem overlay_layer_follows_regions (opacity : float) (items : list TranslationItem) :
  let layer := map_indexed (renderOverlay opacity) items 0 in
  map key layer = seq 0 (List.length items) /\
  map text layer = map translatedText items /\
  map backgroundAlpha layer = map (fun _ => opacity) items.
Proof.
  cbv zeta. split; [|split].
  - now apply map_indexed_keys.
  - now apply map_indexed_map.
  - now apply map_indexed_map.
Qed.

(** ** The opacity slider *)

(** Every position of the slider, 20 to 100, sets an opacity within
    [0.2, 1]; the ends give exactly 0.2 and 1, and the initial opacity 0.8 is
    position 80. *)
Theorem slider_opacity_in_range (pos : Z) (s : SplitViewerState) :
  (20 <= pos <= 100)%Z ->
  opacity_in_range (overlayOpacity (setOpacityFromSlider (js_of_Z pos) s)) = true /\
  overlayOpacity (setOpacityFromSlider (js_of_Z 20) s) = 0.2%float /\
  overlayOpacity (setOpacityFromSlider (js_of_Z 100) s) = 1%float /\
  overlayOpacity (setOpacityFromSlider (js_of_Z 80) s) = overlayOpacity initialState.
Proof.
  intros Hpos. split; [|repeat split].
  cbn [setOpacityFromSlider with_overlayOpacity overlayOpacity].
  assert (Hall : forallb (fun z => opacity_in_range (js_of_Z z / 100)%float)
                   slider_positions = true) by (vm_compute; reflexivity).
  rewrite forallb_forall in Hall. apply Hall.
  unfold slider_positions. apply in_map_iff. exists (Z.to_nat (pos - 20)).
  split; [lia|]. apply in_seq. lia.
Qed.

Lemma slider_opacity_in_range_witness :
  opacity_in_range (overlayOpacity (setOpacityFromSlider (js_of_Z 55) initialState)) = true.
Proof.
  exact (proj1 (slider_opacity_in_range 55 initialState ltac:(lia))).
Defined.

(** ** The font-size factor *)

(** The number of a positive integer below 2^63: a 53-bit mantissa, rounded
    when the integer has more bits. *)
Lemma binary_round_positive (p : positive) :
  (Zpos (digits2_pos p) <= 63)%Z ->
  exists mf ef,
    binary_round prec emax false p 0 = S754_finite false mf ef /\
    Zpos (digits2_pos mf) = 53%Z /\ (-52 <= ef <= 11)%Z.
Proof.
  intros Hd. pose proof (digits2_pos_bounds p) as Hb.
  assert (Hd1 : (1 <= Zpos (digits2_pos p))%Z) by lia.
  destruct (Z_lt_le_dec (Zpos (digits2_pos p)) 53) as [Hs|Hl].
  - unfold binary_round, shl_align. rewrite fexp_normal by lia.
    destruct (Zpos (digits2_pos p) + 0 - 53 - 0)%Z as [|k|k] eqn:Ek; try lia.
    assert (HM : Zpos (digits2_pos (Pos.iter xO p k)) = 53%Z).
    { apply digits2_pos_unique. rewrite iter_xO_pow.
      replace (Zpos k) with (53 - Zpos (digits2_pos p))%Z by lia.
      destruct Hb as [Hlo Hhi]. split.
      - replace (53 - 1)%Z with ((Zpos (digits2_pos p) - 1) + (53 - Zpos (digits2_pos p)))%Z by lia.
        rewrite Z.pow_add_r by lia. apply Z.mul_le_mono_nonneg_r; [|exact Hlo].
        apply Z.pow_nonneg; lia.
      - replace 53%Z with (Zpos (digits2_pos p) + (53 - Zpos (digits2_pos p)))%Z at 2 by lia.
        rewrite Z.pow_add_r by lia. apply Z.mul_lt_mono_pos_r; [|exact Hhi].
        apply Z.pow_pos_nonneg; lia. }
    destruct (binary_round_aux_normal false (Pos.iter xO p k)
                (Zpos (digits2_pos p) + 0 - 53) loc_Exact)
      as (mf & ef & E & Hmf & Hef); rewrite ?HM; try lia.
    exists mf, ef. split; [exact E|]. split.
    + apply digits2_pos_unique. exact Hmf.
    + rewrite HM in Hef. lia.
  - destruct (binary_round_normal false p 0) as (mf & ef & E & Hmf & Hef); try lia.
    exists mf, ef. split; [exact E|]. split.
    + apply digits2_pos_unique. exact Hmf.
    + lia.
Qed.

Lemma js_of_Z_positive (p : positive) :
  (Zpos p < 2 ^ 63)%Z ->
  exists mf ef,
    Prim2SF (js_of_Z (Zpos p)) = S754_finite false mf ef /\
    Zpos (digits2_pos mf) = 53%Z /\ (-52 <= ef <= 11)%Z.
Proof.
  intros Hp. cbn [js_of_Z]. rewrite FloatAxioms.of_uint63_spec.
  rewrite Uint63.of_Z_spec.
  rewrite Z.mod_small by (change wB with (2 ^ 63)%Z; lia).
  cbn [binary_normalize]. apply binary_round_positive.
  apply digits2_pos_le; lia.
Qed.

(** The quotient of two normal numbers of moderate size is a normal number:
    division neither overflows, nor underflows, nor yields NaN. *)
Lemma div_normal (a b : float) (sa sb : bool) (ma mb : positive) (ea eb : Z) :
  Prim2SF a = S754_finite sa ma ea -> Prim2SF b = S754_finite sb mb eb ->
  Zpos (digits2_pos ma) = 53%Z -> Zpos (digits2_pos mb) = 53%Z ->
  (-900 <= ea - eb <= 900)%Z ->
  exists mf ef, Prim2SF (a / b) = S754_finite (xorb sa sb) mf ef.
Proof.
  intros Ha Hb Da Db He.
  rewrite FloatAxioms.div_spec, Ha, Hb. unfold SF64div, SFdiv, SFdiv_core_binary.
  cbn [Zdigits2]. rewrite Da, Db.
  replace (53 + ea - (53 + eb))%Z with (ea - eb)%Z by lia.
  rewrite fexp_normal by lia. rewrite Z.min_l by lia.
  replace (ea - eb - (ea - eb - 53))%Z with 53%Z by lia.
  cbv iota. rewrite Z.shiftl_mul_pow2 by lia.
  pose proof (digits2_pos_bounds ma) as Ba. rewrite Da in Ba.
  pose proof (digits2_pos_bounds mb) as Bb. rewrite Db in Bb.
  change (53 - 1)%Z with 52%Z in Ba, Bb.
  pose proof (Z_div_mod (Zpos ma * 2 ^ 53) (Zpos mb) ltac:(lia)) as Hdm.
  destruct (Z.div_eucl (Zpos ma * 2 ^ 53) (Zpos mb)) as [q r].
  destruct Hdm as [Hq Hr].
  change (2 ^ 52)%Z with 4503599627370496%Z in *.
  change (2 ^ 53)%Z with 9007199254740992%Z in *.
  assert (Hqlo : (4503599627370496 <= q)%Z) by nia.
  assert (Hqhi : (q < 18014398509481984)%Z) by nia.
  destruct q as [|Q|Q]; try lia.
  assert (D1 : (53 <= Zpos (digits2_pos Q))%Z).
  { apply (digits2_pos_gt Q 52); [lia|]. change (2 ^ 52)%Z with 4503599627370496%Z. lia. }
  assert (D2 : (Zpos (digits2_pos Q) <= 54)%Z).
  { apply (digits2_pos_le Q 54); [lia|]. change (2 ^ 54)%Z with 18014398509481984%Z. lia. }
  destruct (binary_round_aux_normal (xorb sa sb) Q (ea - eb - 53)
              (new_location (Zpos mb) r)) as (mf & ef & E & _); try lia.
  now exists mf, ef.
Qed.

Lemma finite_number (f : float) (s : bool) (m : positive) (e : Z) :
  Prim2SF f = S754_finite s m e -> is_finite f = true.
Proof.
  intros Hf. unfold is_finite. apply negb_true_iff, orb_false_iff. split.
  - apply not_nan_spec. rewrite Hf. discriminate.
  - unfold is_infinity.
    rewrite FloatAxioms.eqb_spec, FloatAxioms.abs_spec, Hf. reflexivity.
Qed.

Lemma Prim2SF_95 : Prim2SF 95 = S754_finite false 6685030696878080 (-46).
Proof. reflexivity. Qed.

(** Thanks to [length || 1], the factor 95/len of the font size is a
    finite, positive number for every translated text, the empty one
    included: never Infinity (95/0) and never NaN. *)
Theorem font_factor_is_positive_number (item : TranslationItem) :
  (Z.of_nat (js_length (translatedText item)) < 2 ^ 63)%Z ->
  let factor := (95 / js_of_Z (Z.of_nat (textLen_of item)))%float in
  is_finite factor = true /\ (0 <? factor)%float = true.
Proof.
  intros Hlen factor.
  assert (Hpos : exists p, Z.of_nat (textLen_of item) = Zpos p /\ (Zpos p < 2 ^ 63)%Z).
  { unfold textLen_of. destruct (js_length (translatedText item)) as [|n] eqn:En.
    - exists 1%positive. split; [reflexivity|reflexivity].
    - cbn [Nat.eqb]. exists (Pos.of_succ_nat n). rewrite Zpos_P_of_succ_nat.
      split; lia. }
  destruct Hpos as (p & Ep & Hp). subst factor. rewrite Ep.
  destruct (js_of_Z_positive p Hp) as (mb & eb & Hb & Db & Heb).
  destruct (div_normal 95 (js_of_Z (Zpos p)) _ _ _ _ _ _ Prim2SF_95 Hb eq_refl Db ltac:(lia))
    as (mf & ef & Hf).
  split.
  - exact (finite_number _ _ _ _ Hf).
  - rewrite FloatAxioms.ltb_spec, Hf, Prim2SF_zero. reflexivity.
Qed.

Lemma font_factor_is_positive_number_witness :
  is_finite (95 / js_of_Z (Z.of_nat (textLen_of (grid_item [] [] 0 0 500 1000))))%float = true /\
  (0 <? 95 / js_of_Z (Z.of_nat (textLen_of (grid_item [] [] 0 0 500 1000))))%float = true.
Proof.
  exact (font_factor_is_positive_number (grid_item [] [] 0 0 500 1000) eq_refl).
Defined.

(** * The translation service *)

Lemma js_split_free (sep : ascii) (s : string) :
  free_of sep s = true -> js_split sep s = [s].
Proof.
  induction s as [|c rest IH]; [reflexivity|].
  cbn [free_of js_split]. intros H. apply andb_true_iff in H. destruct H as [Hc Hrest].
  apply negb_true_iff in Hc. rewrite Hc, (IH Hrest). reflexivity.
Qed.

Lemma js_split_not_nil (sep : ascii) (s : string) : js_split sep s <> [].
Proof.
  induction s as [|c rest IH]; cbn [js_split]; [discriminate|].
  destruct (Ascii.eqb c sep); [discriminate|].
  destruct (js_split sep rest); discriminate.
Qed.

Lemma js_split_append (sep : ascii) (hd tl : string) :
  free_of sep hd = true ->
  js_split sep (hd ++ String sep tl) = hd :: js_split sep tl.
Proof.
  induction hd as [|c rest IH]; cbn [free_of append js_split].
  - intros _. now rewrite Ascii.eqb_refl.
  - intros H. apply andb_true_iff in H. destruct H as [Hc Hrest].
    apply negb_true_iff in Hc. rewrite Hc, (IH Hrest). reflexivity.
Qed.

(** The pieces of a split contain no separator. *)
Lemma js_split_pieces_free (sep : ascii) (s : string) :
  Forall (fun piece => free_of sep piece = true) (js_split sep s).
Proof.
  induction s as [|c rest IH]; cbn [js_split].
  - constructor; [reflexivity|constructor].
  - destruct (Ascii.eqb c sep) eqn:Hc.
    + constructor; [reflexivity|exact IH].
    + destruct (js_split sep rest) as [|seg segs]; [constructor; [|constructor]|].
      * cbn [free_of]. now rewrite Hc.
      * inversion IH as [|? ? Hseg Hsegs]; subst. constructor; [|exact Hsegs].
        cbn [free_of]. now rewrite Hc, Hseg.
Qed.

(** Joining the pieces with the separator gives the string back. *)
Lemma js_split_join (sep : ascii) (s : string) :
  String.concat (String sep "") (js_split sep s) = s.
Proof.
  induction s as [|c rest IH]; [reflexivity|].
  cbn [js_split]. destruct (Ascii.eqb c sep) eqn:Hc.
  - apply Ascii.eqb_eq in Hc. subst c.
    pose proof (js_split_not_nil sep rest) as Hn.
    destruct (js_split sep rest) as [|seg segs] eqn:E; [congruence|].
    cbn [String.concat append] in *. now rewrite IH.
  - pose proof (js_split_not_nil sep rest) as Hn.
    destruct (js_split sep rest) as [|seg segs] eqn:E; [congruence|].
    cbn [String.concat] in *. destruct segs; cbn [append] in *; now rewrite <- IH.
Qed.

Lemma cleanBase64_free (s : string) : free_of "," s = true -> cleanBase64 s = s.
Proof. intros H. unfold cleanBase64. now rewrite (js_split_free _ _ H). Qed.

Lemma cleanBase64_header (header payload : string) :
  free_of "," header = true -> free_of "," payload = true -> payload <> ""%string ->
  cleanBase64 (header ++ "," ++ payload) = payload.
Proof.
  intros Hh Hp Hne. unfold cleanBase64.
  change ("," ++ payload)%string with (String "," payload).
  rewrite (js_split_append _ _ _ Hh), (js_split_free _ _ Hp). cbn [nth_error].
  destruct (String.eqb payload "") eqn:E; [|reflexivity].
  apply String.eqb_eq in E. contradiction.
Qed.

(** The result is the input itself or a piece without comma. *)
Lemma cleanBase64_cases (s : string) :
  cleanBase64 s = s \/ free_of "," (cleanBase64 s) = true.
Proof.
  unfold cleanBase64. pose proof (js_split_pieces_free "," s) as Hfree.
  destruct (js_split "," s) as [|p0 [|p1 ps]]; cbn [nth_error]; try now left.
  destruct (String.eqb p1 ""); [now left|right].
  inversion Hfree as [|? ? _ Hrest]; subst. now inversion Hrest.
Qed.

(** Stripping the data-URL header: of [header,payload] the payload is kept
    (up to a further comma, if any); a string without comma, and one whose
    second piece is empty, are passed on whole; stripping twice is stripping
    once. *)
Theorem cleanBase64_strips_header (base64Image header payload : string) :
  (free_of "," header = true -> free_of "," payload = true -> payload <> ""%string ->
   cleanBase64 (header ++ "," ++ payload) = payload) /\
  (free_of "," base64Image = true -> cleanBase64 base64Image = base64Image) /\
  (free_of "," header = true -> cleanBase64 (header ++ ",") = (header ++ ",")%string) /\
  cleanBase64 (cleanBase64 base64Image) = cleanBase64 base64Image.
Proof.
  split; [|split; [|split]].
  - apply cleanBase64_header.
  - apply cleanBase64_free.
  - intros Hh. unfold cleanBase64. rewrite (js_split_append _ _ _ Hh). reflexivity.
  - destruct (cleanBase64_cases base64Image) as [H|H].
    + now rewrite !H.
    + now apply cleanBase64_free.
Qed.

Lemma cleanBase64_strips_header_witness :
  cleanBase64 "data:image/jpeg;base64,/9j/4AAQ" = "/9j/4AAQ"%string.
Proof.
  exact (proj1 (cleanBase64_strips_header "" "data:image/jpeg;base64" "/9j/4AAQ")
           eq_refl eq_refl ltac:(discriminate)).
Defined.

(** Without an API key (undefined or empty) every call is rejected with
    the key error and sends nothing; with a key exactly one request is sent,
    always as image/jpeg to gemini-2.5-flash with the stripped image data. *)
Theorem translate_requests
    (API_KEY : option string)
    (generateContent : GenerateRequest -> Settled (option string))
    (JSON_parse : string -> Settled (list TranslationItem))
    (base64Image : string) :
  translateImageContent None generateContent JSON_parse base64Image =
    ([], Rejected "API Key not found in environment variables") /\
  translateImageContent (Some ""%string) generateContent JSON_parse base64Image =
    ([], Rejected "API Key not found in environment variables") /\
  fst (translateImageContent API_KEY generateContent JSON_parse base64Image) =
    match getGeminiClient API_KEY with
    | Resolved _ => [{| model := "gemini-2.5-flash"; mimeType := "image/jpeg";
                        data := cleanBase64 base64Image |}]
    | Rejected _ => []
    end.
Proof.
  split; [reflexivity|]. split; [reflexivity|].
  unfold translateImageContent. destruct (getGeminiClient API_KEY); [|reflexivity].
  destruct (generateContent _) as [[text|]|]; try reflexivity.
  destruct (String.eqb text ""); reflexivity.
Qed.

(** A data URL and its bare payload are translated alike: same request,
    same outcome. *)
Theorem translate_ignores_header
    (API_KEY : option string)
    (generateContent : GenerateRequest -> Settled (option string))
    (JSON_parse : string -> Settled (list TranslationItem))
    (header payload : string) :
  free_of "," header = true -> free_of "," payload = true -> payload <> ""%string ->
  translateImageContent API_KEY generateContent JSON_parse (header ++ "," ++ payload) =
  translateImageContent API_KEY generateContent JSON_parse payload.
Proof.
  intros Hh Hp Hne. unfold translateImageContent.
  rewrite (cleanBase64_header header payload Hh Hp Hne).
  now rewrite (cleanBase64_free payload Hp).
Qed.

Lemma translate_ignores_header_witness :
  translateImageContent (Some "k"%string) (fun _ => Resolved None) (fun _ => Resolved [])
    "data:image/png;base64,iVBORw0KGgo" =
  translateImageContent (Some "k"%string) (fun _ => Resolved None) (fun _ => Resolved [])
    "iVBORw0KGgo".
Proof.
  exact (translate_ignores_header (Some "k"%string) (fun _ => Resolved None)
           (fun _ => Resolved []) "data:image/png;base64" "iVBORw0KGgo"
           eq_refl eq_refl ltac:(discriminate)).
Defined.

(** * The application shell *)

Lemma App_handle_all_snoc (a : App.State) (evs : list App.Action) (ev : App.Action) :
  App.handle_all a (evs ++ [ev]) = App.handle (App.handle_all a evs) ev.
Proof. unfold App.handle_all. now rewrite fold_left_app. Qed.

Lemma App_handle_error (a : App.State) (ev : App.Action) :
  (App.appState a = App.ERROR -> App.errorMsg a = Some failure_message) ->
  App.appState (App.handle a ev) = App.ERROR ->
  App.errorMsg (App.handle a ev) = Some failure_message.
Proof.
  intros Ha. destruct ev as [| |src|[r|e]|]; cbn; try discriminate; try reflexivity; exact Ha.
Qed.

(** Whenever the app is in the error state, whatever happened before and in
    whatever order captures, translations and button presses arrived, it
    shows the error card, alone, with the failure message. *)
Theorem App_error_card_has_message (evs : list App.Action) :
  App.appState (App.handle_all App.initial evs) = App.ERROR ->
  App.screens (App.handle_all App.initial evs) = [App.ErrorCard (Some failure_message)].
Proof.
  intros He.
  assert (Hinv : App.appState (App.handle_all App.initial evs) = App.ERROR ->
                 App.errorMsg (App.handle_all App.initial evs) = Some failure_message).
  { clear He. induction evs as [|ev evs IH] using rev_ind; [discriminate|].
    rewrite App_handle_all_snoc. now apply App_handle_error. }
  unfold App.screens. rewrite He, (Hinv He). reflexivity.
Qed.

Lemma App_error_card_has_message_witness :
  App.screens
    (App.handle_all App.initial
       [App.TakePhoto; App.ImageChosen "data:image/jpeg;base64,AAAA";
        App.TranslationSettled (Rejected "API Key not found in environment variables")]) =
  [App.ErrorCard (Some failure_message)].
Proof.
  exact (App_error_card_has_message
           [App.TakePhoto; App.ImageChosen "data:image/jpeg;base64,AAAA";
            App.TranslationSettled (Rejected "API Key not found in environment variables")]
           eq_refl).
Defined.

(** Closing the viewer or pressing Try Again forgets everything: after any
    history the app is exactly in its initial state and shows the landing
    screen. *)
Theorem App_reset_restores_initial (a : App.State) (evs : list App.Action) :
  App.handle_all a (evs ++ [App.Reset]) = App.initial /\
  App.screens (App.handle_all a (evs ++ [App.Reset])) = [App.Landing].
Proof.
  rewrite App_handle_all_snoc. split; reflexivity.
Qed.

(** At most one screen is shown at a time, and nothing at all only in the
    viewing state without a (non-empty) image. *)
Theorem App_one_screen (a : App.State) :
  (List.length (App.screens a) <= 1)%nat /\
  (App.screens a = [] <->
   App.appState a = App.VIEWING /\
   (App.imageData a = None \/ App.imageData a = Some ""%string)).
Proof.
  unfold App.screens.
  destruct (App.appState a) eqn:Es; cbn [app List.length];
    try (split; [lia|]; split; [discriminate|intros [H _]; discriminate]).
  destruct (App.imageData a) as [src|] eqn:Ei.
  - destruct (String.eqb src "") eqn:E.
    + apply String.eqb_eq in E. subst src. split; [cbn; lia|].
      split; [intros _; split; [reflexivity|now right]|reflexivity].
    + split; [cbn; lia|]. split; [discriminate|].
      intros [_ [H|H]]; [discriminate|].
      injection H as ->. discriminate.
  - split; [cbn; lia|]. split; [intros _; split; [reflexivity|now left]|reflexivity].
Qed.

(** One capture from start to end: without an API key the user gets the
    error card with the general failure message (the key error itself is not
    shown); when the translation resolves, the viewer opens on the captured
    image with the regions returned, none if the response had no text. *)
Theorem App_process_image
    (API_KEY : option string)
    (generateContent : GenerateRequest -> Settled (option string))
    (JSON_parse : string -> Settled (list TranslationItem))
    (imageSrc : string) (a : App.State) :
  App.screens (App.processImage None generateContent JSON_parse imageSrc a) =
    [App.ErrorCard (Some failure_message)] /\
  (forall result,
     snd (translateImageContent API_KEY generateContent JSON_parse imageSrc) = Resolved result ->
     imageSrc <> ""%string ->
     App.screens (App.processImage API_KEY generateContent JSON_parse imageSrc a) =
       [App.Viewer (viewer_props_of imageSrc result)]) /\
  (forall error,
     snd (translateImageContent API_KEY generateContent JSON_parse imageSrc) = Rejected error ->
     App.screens (App.processImage API_KEY generateContent JSON_parse imageSrc a) =
       [App.ErrorCard (Some failure_message)]) /\
  (forall key,
     API_KEY = Some key -> key <> ""%string ->
     generateContent {| model := "gemini-2.5-flash"; mimeType := "image/jpeg";
                        data := cleanBase64 imageSrc |} = Resolved None ->
     snd (translateImageContent API_KEY generateContent JSON_parse imageSrc) = Resolved []).
Proof.
  split; [reflexivity|]. split; [|split].
  - intros result Hr Hne. unfold App.processImage. rewrite Hr.
    unfold App.screens. cbn.
    destruct (String.eqb imageSrc "") eqn:E; [|reflexivity].
    apply String.eqb_eq in E. contradiction.
  - intros error Hr. unfold App.processImage. rewrite Hr. reflexivity.
  - intros key -> Hk Hg. unfold translateImageContent, getGeminiClient.
    destruct (String.eqb key "") eqn:E.
    + apply String.eqb_eq in E. contradiction.
    + now rewrite Hg.
Qed.

Lemma App_process_image_witness :
  App.screens
    (App.processImage (Some "k"%string) (fun _ => Resolved None) (fun _ => Resolved [])
       "data:image/jpeg;base64,AAAA" App.initial) =
  [App.Viewer (viewer_props_of "data:image/jpeg;base64,AAAA" [])].
Proof.
  exact (proj1 (proj2 (App_process_image (Some "k"%string) (fun _ => Resolved None)
                         (fun _ => Resolved []) "data:image/jpeg;base64,AAAA" App.initial))
           [] eq_refl ltac:(discriminate)).
Defined.
